(** * Region-persistent suitcase counter: a shallow embedding of
      [OCR_suitcase.py] and the properties of its counting state machine.

    The development has three layers.

    - [Shapely]: the geometry the program delegates to the shapely library
      ([Point], [Polygon], [Polygon.contains]).  That code is not part of the
      repository; it is modelled here by the exact point-in-ring location
      algorithm of the GEOS library that shapely wraps.
    - the class [RegionPersistentCounter]: its attributes and the methods
      [is_in_region], [draw_statistics], [process_frame], [process_video],
      written in a state-and-exception monad that also records what the
      program does step by step (prints, membership tests, identities
      issued).  This layer is parametric in the membership predicate.
    - the theorems, one group per property. *)

From Stdlib Require Import ZArith QArith Qreduction Qround Lia Lqa List Bool.
From stdpp Require Import base option list gmap sorting.

Open Scope Z_scope.

(* ===================================================================== *)
(** ** Numbers *)
(* ===================================================================== *)

(** Boolean comparisons on rationals.  Coordinates are the integers and the
    doubles that the program produces: bounding-box corners are [numpy]
    64-bit integers ([astype(int)]), the mid-points are float quotients by 2.
    Doubles are rationals, so all of them are represented in [Q] and
    compared exactly. *)
Definition Qeqb (a b : Q) : bool := Qeq_bool a b.
Definition Qleb (a b : Q) : bool := Qle_bool a b.
Definition Qltb (a b : Q) : bool := negb (Qle_bool b a).

(** [numpy] adds and subtracts 64-bit integers modulo 2^64. *)
Definition wrap64 (n : Z) : Z :=
  (n + 9223372036854775808) `mod` 18446744073709551616 - 9223372036854775808.

(** The double that a 64-bit integer converts to: the integer itself below
    2^53 in absolute value; above, the nearest integer with 53 significant
    bits, ties going to the even one. *)
Definition float64_of_int (n : Z) : Z :=
  let a := Z.abs n in
  if a <? 9007199254740992 then n
  else
    let e := Z.log2 a - 52 in
    let q := a / 2 ^ e in
    let r := a `mod` 2 ^ e in
    let half := 2 ^ (e - 1) in
    let q' := if (half <? r) || ((r =? half) && Z.odd q) then q + 1 else q in
    Z.sgn n * (q' * 2 ^ e).

(** [a / b] on [numpy] integers (true division): both are converted to
    doubles, which are then divided.  The program divides by 2 only, and
    halving a double of this size is exact.  The result is kept as a reduced
    fraction. *)
Definition true_div (a b : Z) : Q :=
  Qred (inject_Z (float64_of_int a) / inject_Z (float64_of_int b))%Q.

(** Python's [int(v)] on a number: the fractional part is dropped. *)
Definition int_of (v : Q) : Z :=
  if Qle_bool 0 v then Qfloor v else Qceiling v.

(** [cv2] takes the coordinates of a pixel as C [int]s. *)
Definition fits_int (n : Z) : bool :=
  (-2147483648 <=? n) && (n <=? 2147483647).

(* ===================================================================== *)
(** ** The geometry library *)
(* ===================================================================== *)

Module Shapely.

(** [Point(xy)]: a point geometry built from a coordinate pair.  The library
    keeps coordinates as doubles; the model keeps them as given, which is
    the same for the integers and halves below 2^53 that boxes of pixel
    coordinates give. *)
Inductive point : Type := Point (xy : Q * Q).

Definition coords (p : point) : Q * Q := let 'Point xy := p in xy.

(** A polygon without holes, held as the coordinate sequence of its
    exterior ring. *)
Record polygon : Type := mkPolygon { exterior : list (Q * Q) }.

Definition coord_eqb (a b : Q * Q) : bool :=
  Qeqb (fst a) (fst b) && Qeqb (snd a) (snd b).

(** [Polygon(shell)]: the ring is closed by repeating its first coordinate
    when the last one differs; a ring of three coordinates is padded with
    its first coordinate in either case, so that a ring holds four
    coordinates at least.  No coordinates give the empty polygon; one or two
    coordinates are rejected (a [ValueError] of the library, raised in
    [__init__] before any frame is read). *)
Definition Polygon (shell : list (Q * Q)) : option polygon :=
  match shell with
  | [] => Some (mkPolygon [])
  | first :: _ =>
      if (length shell <? 3)%nat then None
      else if coord_eqb first (List.last shell first) && (3 <? length shell)%nat
           then Some (mkPolygon shell)
           else Some (mkPolygon (shell ++ [first]))
  end.


(** *** Locating a point in a ring (GEOS [RayCrossingCounter]) *)

Inductive Location : Type := INTERIOR | BOUNDARY | EXTERIOR.

Record RayCrossingCounter : Type := mkRCC {
  crossingCount : nat;
  isPointOnSegment : bool
}.

(** Sign of the turn [p1 -> p2 -> q]: positive when [q] lies to the left
    of the directed line, zero when the three are collinear.  The library
    evaluates this sign exactly. *)
Definition orientationIndex (p1 p2 q : Q * Q) : comparison :=
  let det := ((fst p2 - fst p1) * (snd q - snd p1)
              - (snd p2 - snd p1) * (fst q - fst p1))%Q in
  (det ?= 0)%Q.

Definition on_segment_flag (c : RayCrossingCounter) : RayCrossingCounter :=
  mkRCC (crossingCount c) true.

(** One ring segment [p1 -> p2] against the horizontal ray that leaves
    [pt] towards increasing x. *)
Definition countSegment (pt p1 p2 : Q * Q) (c : RayCrossingCounter)
  : RayCrossingCounter :=
  if Qltb (fst p1) (fst pt) && Qltb (fst p2) (fst pt) then c
  else if Qeqb (fst pt) (fst p2) && Qeqb (snd pt) (snd p2)
  then on_segment_flag c
  else if Qeqb (snd p1) (snd pt) && Qeqb (snd p2) (snd pt) then
    let minx := if Qltb (fst p2) (fst p1) then fst p2 else fst p1 in
    let maxx := if Qltb (fst p2) (fst p1) then fst p1 else fst p2 in
    if Qleb minx (fst pt) && Qleb (fst pt) maxx
    then on_segment_flag c else c
  else if (Qltb (snd pt) (snd p1) && Qleb (snd p2) (snd pt))
          || (Qltb (snd pt) (snd p2) && Qleb (snd p1) (snd pt)) then
    match orientationIndex p1 p2 pt with
    | Eq => on_segment_flag c
    | sign =>
        let sign' := if Qltb (snd p2) (snd p1) then CompOpp sign else sign in
        match sign' with
        | Gt => mkRCC (S (crossingCount c)) (isPointOnSegment c)
        | _ => c
        end
    end
  else c.

Definition getLocation (c : RayCrossingCounter) : Location :=
  if isPointOnSegment c then BOUNDARY
  else if Nat.odd (crossingCount c) then INTERIOR
  else EXTERIOR.

(** The segments of the ring in order, stopping at the first one that
    carries the point. *)
Fixpoint countRing (pt : Q * Q) (ring : list (Q * Q))
    (c : RayCrossingCounter) : RayCrossingCounter :=
  match ring with
  | p1 :: ((p2 :: _) as rest) =>
      let c' := countSegment pt p1 p2 c in
      if isPointOnSegment c' then c' else countRing pt rest c'
  | _ => c
  end.

Definition locatePointInRing (pt : Q * Q) (ring : list (Q * Q)) : Location :=
  getLocation (countRing pt ring (mkRCC 0 false)).

(** [polygon.contains(point)]: the point is located in the interior of the
    polygon.  (The library first compares bounding boxes and treats
    rectangles apart; both shortcuts compute the same predicate.) *)
Definition contains (poly : polygon) (p : point) : bool :=
  match locatePointInRing (coords p) (exterior poly) with
  | INTERIOR => true
  | _ => false
  end.

(** *** The boundary of a polygon, for stating what [contains] excludes *)





End Shapely.

(* ===================================================================== *)
(** ** The counter object and what a run consumes and emits *)
(* ===================================================================== *)

(** The attributes of [RegionPersistentCounter] that the counting logic
    reads or writes.  The video capture and writer, the model handle and the
    colour palette only serve decoding and drawing and are left out.
    [class_counts] is a dictionary that is iterated at the end of the run, so
    it is kept as an association list in insertion order. *)
Record RegionPersistentCounter : Type := mkCounter {
  region_polygon1 : Shapely.polygon;
  region_polygon2 : Shapely.polygon;
  yolo_id_to_custom_id : gmap Z Z;
  next_custom_id : Z;
  object_region_assignments : gmap Z Z;
  class_counts : list (Z * Z)
}.

(** What [model.track] returns for one frame: a list of results whose first
    element carries the boxes; the class and track-id columns may be absent.
    The entries are the 64-bit integers that [astype(int)] yields. *)
Record Boxes : Type := mkBoxes {
  boxes_xyxy : list (list Z);
  boxes_cls : option (list Z);
  boxes_id : option (list Z)
}.

Record Results : Type := mkResults { boxes : option Boxes }.

(** One iteration of the video loop: the tracker output for the frame read,
    and whether the key [q] is pressed after the frame is shown. *)
Record FrameInput : Type := mkFrame {
  track : list Results;
  quit_key : bool
}.

(** Exceptions raised inside the guarded block: calling [.cpu()] on a
    missing column, unpacking a box that does not hold four values, and
    handing [cv2] a pixel coordinate that does not fit a C [int]. *)
Inductive exn : Type := AttributeError | ValueError | DrawingError.

(** The lines the program prints. *)
Inductive message : Type :=
| MsgDetectedClasses (frame_count : Z) (unique_classes : list Z)
| MsgAssigned (unique_id region : Z)
| MsgErrorTracking (e : exn)
| MsgNoTrackingIDs
| MsgNoDetections
| MsgProcessingFrame (frame_count : Z)
| MsgFrameEmpty
| MsgFinalCounts (total_count region1_count region2_count : Z)
| MsgClassStatistics (cls_id count : Z).

(** The labels of the steps of a run.  [EvIsInRegion u cp k] is a call
    [self.is_in_region(cp, self.region_polygon<k>)] made while the detection
    of identity [u] is processed; [EvIssue y u] is the creation of the
    registry entry [y -> u]. *)
Inductive event : Type :=
| EvPrint (m : message)
| EvIsInRegion (unique_id : Z) (cp : Q * Q) (region : Z)
| EvIssue (yolo_id unique_id : Z).

(* ===================================================================== *)
(** ** The monad: state, trace and exceptions *)
(* ===================================================================== *)

Inductive outcome (A : Type) : Type :=
| Normal (a : A)
| Raise (e : exn).
Arguments Normal {A} a.
Arguments Raise {A} e.

(** A computation leaves a state behind even when it raises: Python does not
    roll back the dictionaries that were updated before the exception. *)
Record result (A : Type) : Type := mkResult {
  final : RegionPersistentCounter;
  trace : list event;
  value : outcome A
}.
Arguments mkResult {A} final trace value.
Arguments final {A} r.
Arguments trace {A} r.
Arguments value {A} r.

Definition M (A : Type) : Type := RegionPersistentCounter -> result A.

Definition ret {A} (a : A) : M A := fun s => mkResult s [] (Normal a).

Definition bind {A B} (f : A -> M B) (m : M A) : M B := fun s =>
  let r := m s in
  match value r with
  | Normal a =>
      let r' := f a (final r) in
      mkResult (final r') (trace r ++ trace r') (value r')
  | Raise e => mkResult (final r) (trace r) (Raise e)
  end.

(** The notations [x ← m; k] and [m;; k] of the monad classes. *)
#[global] Instance M_ret : MRet M := @ret.
#[global] Instance M_bind : MBind M := @bind.

Definition raise {A} (e : exn) : M A := fun s => mkResult s [] (Raise e).
Definition get : M RegionPersistentCounter := fun s => mkResult s [] (Normal s).
Definition put (s : RegionPersistentCounter) : M unit :=
  fun _ => mkResult s [] (Normal tt).
Definition emit (ev : event) : M unit := fun s => mkResult s [ev] (Normal tt).
Definition print (m : message) : M unit := emit (EvPrint m).
Definition when (b : bool) (m : M unit) : M unit := if b then m else ret tt.

(** [try: body except Exception as e: handler e]. *)
Definition try_except (body : M unit) (handler : exn -> M unit) : M unit :=
  fun s =>
    let r := body s in
    match value r with
    | Normal a => r
    | Raise e =>
        let r' := handler e (final r) in
        mkResult (final r') (trace r ++ trace r') (value r')
    end.

(** [for x in l: body x]; an exception leaves the loop. *)
Fixpoint for_each {X} (body : X -> M unit) (l : list X) : M unit :=
  match l with
  | [] => ret tt
  | x :: rest => body x;; for_each body rest
  end.

(* ===================================================================== *)
(** ** The methods of [RegionPersistentCounter] *)
(* ===================================================================== *)

(** [a, b, c in zip(la, lb, lc)]: stops with the shortest list. *)
Definition zip3 {A B C} (la : list A) (lb : list B) (lc : list C)
  : list (A * B * C) := zip (zip la lb) lc.

(** [d[c] = d.get(c, 0) + 1] on a dictionary in insertion order. *)
Fixpoint dict_incr (c : Z) (d : list (Z * Z)) : list (Z * Z) :=
  match d with
  | [] => [(c, 1)]
  | (k, v) :: rest =>
      if decide (k = c) then (k, v + 1) :: rest else (k, v) :: dict_incr c rest
  end.

(** [np.unique]: the distinct values in increasing order. *)
Definition np_unique (l : list Z) : list Z := merge_sort Z.le (remove_dups l).

(** [sum(1 for r in assignments.values() if r == region)]. *)
Definition count_assigned (region : Z) (assignments : gmap Z Z) : Z :=
  Z.of_nat (length (filter (λ r, r = region) (snd <$> map_to_list assignments))).

(** The six sample points of a bounding box, lines 180-187.  The corners are
    [numpy] 64-bit integers: their sum wraps, and its quotient by 2 is taken
    in floating point. *)
Definition check_points (x1 y1 x2 y2 : Z) : list (Q * Q) :=
  [ (inject_Z x2, inject_Z y1);                      (* top-right corner *)
    (inject_Z x1, inject_Z y2);                      (* bottom-left corner *)
    (inject_Z x2, inject_Z y2);                      (* bottom-right corner *)
    (true_div (wrap64 (x1 + x2)) 2, inject_Z y2);    (* bottom midpoint *)
    (inject_Z x1, true_div (wrap64 (y1 + y2)) 2);    (* left midpoint *)
    (inject_Z x2, true_div (wrap64 (y1 + y2)) 2) ].  (* right midpoint *)

(** The pixels handed to [cv2] while a detection is drawn, in the order of
    the calls.  For an identity that has a region already (lines 156-176):
    the two corners of the rectangle, the position of the class label and
    that of the identity label. *)
Definition drawn_frozen (x1 y1 x2 y2 : Z) : list (Z * Z) :=
  [ (x1, y1); (x2, y2);                  (* cv2.rectangle *)
    (x1, wrap64 (y1 - 10));              (* cv2.putText, class label *)
    (x1, wrap64 (y2 + 20)) ].            (* cv2.putText, identity label *)

(** For an identity that had none when the detection was reached (lines
    211-242): the rectangle, the class label, a circle at each sample point
    and the identity label. *)
Definition drawn_scanned (x1 y1 x2 y2 : Z) : list (Z * Z) :=
  [ (x1, y1); (x2, y2);                  (* cv2.rectangle *)
    (x1, wrap64 (y1 - 10)) ]             (* cv2.putText, class label *)
  ++ map (λ cp, (int_of cp.1, int_of cp.2))
         (check_points x1 y1 x2 y2)      (* cv2.circle *)
  ++ [ (x1, wrap64 (y2 + 20)) ].         (* cv2.putText, identity label *)

(** The drawing calls change nothing that the counting logic reads; the
    first pixel that does not fit a C [int] makes its call raise. *)
Definition draw_outcome (pixels : list (Z * Z)) : outcome unit :=
  if forallb (λ p, fits_int p.1 && fits_int p.2) pixels
  then Normal tt else Raise DrawingError.

Definition draw (pixels : list (Z * Z)) : M unit :=
  fun s => mkResult s [] (draw_outcome pixels).

(** A box that the program draws without error: its corners and the
    positions of its two labels, 10 pixels above and 20 pixels below, are C
    [int]s.  The corners of such a box add up without wrapping and their
    mid-points are exact. *)
Definition pixel_box (x1 y1 x2 y2 : Z) : Prop :=
  (-2147483648 <= x1 <= 2147483647)
  /\ (-2147483638 <= y1 <= 2147483647)
  /\ (-2147483648 <= x2 <= 2147483647)
  /\ (-2147483648 <= y2 <= 2147483627).

(** [x1, y1, x2, y2 = box]. *)
Definition unpack4 (box : list Z) : M (Z * Z * Z * Z) :=
  match box with
  | [x1; y1; x2; y2] => mret (x1, y1, x2, y2)
  | _ => raise ValueError
  end.

(** Lines 146-147: a new registry entry, and the next identity to issue. *)
Definition register_id (yolo_id : Z) (self : RegionPersistentCounter)
  : RegionPersistentCounter :=
  mkCounter (region_polygon1 self) (region_polygon2 self)
    (<[yolo_id := next_custom_id self]> (yolo_id_to_custom_id self))
    (next_custom_id self + 1)
    (object_region_assignments self) (class_counts self).

(** Lines 201 and 204: [self.object_region_assignments[unique_id] = region]. *)
Definition set_assignment (unique_id region : Z) (self : RegionPersistentCounter)
  : RegionPersistentCounter :=
  mkCounter (region_polygon1 self) (region_polygon2 self)
    (yolo_id_to_custom_id self) (next_custom_id self)
    (<[unique_id := region]> (object_region_assignments self))
    (class_counts self).

(** Lines 125-126: one more occurrence of each class of the frame. *)
Definition add_class_counts (classes_this_frame : list Z)
    (self : RegionPersistentCounter) : RegionPersistentCounter :=
  mkCounter (region_polygon1 self) (region_polygon2 self)
    (yolo_id_to_custom_id self) (next_custom_id self)
    (object_region_assignments self)
    (foldl (λ d c, dict_incr c d) (class_counts self) classes_this_frame).

(** Lines 145-148: the stable identity of a tracker id, issued on first
    sight. *)
Definition resolve_custom_id (yolo_id : Z) : M Z :=
  self ← get;
  match yolo_id_to_custom_id self !! yolo_id with
  | Some unique_id => mret unique_id
  | None =>
      put (register_id yolo_id self);;
      emit (EvIssue yolo_id (next_custom_id self));;
      mret (next_custom_id self)
  end.

Definition assign_region (unique_id region : Z) : M unit :=
  self ← get;
  put (set_assignment unique_id region self).

Definition count_classes (classes_this_frame : list Z) : M unit :=
  self ← get;
  put (add_class_counts classes_this_frame self).

(** The region counts written on every frame and printed at the end:
    [(total_count, region1_count, region2_count)], lines 87-89 and 283-285. *)
Definition draw_statistics (self : RegionPersistentCounter) : Z * Z * Z :=
  let region1_count := count_assigned 1 (object_region_assignments self) in
  let region2_count := count_assigned 2 (object_region_assignments self) in
  let total_count := region1_count + region2_count in
  (total_count, region1_count, region2_count).

(** [self.region_polygon1] for region 1, [self.region_polygon2] otherwise. *)
Definition region_polygon (k : Z) (self : RegionPersistentCounter)
  : Shapely.polygon :=
  if k =? 1 then region_polygon1 self else region_polygon2 self.

Section Methods.

(** The membership test of the geometry library, [polygon.contains(point)].
    The counting logic is written, and most of it verified, for any such
    test. *)
Variable contains : Shapely.polygon -> Shapely.point -> bool.

Definition is_in_region (point_xy : Q * Q) (region_polygon : Shapely.polygon)
  : bool :=
  let point := Shapely.Point point_xy in
  contains region_polygon point.

(** A call [self.is_in_region(cp, self.region_polygon<region>)] made for
    identity [unique_id]. *)
Definition call_is_in_region (unique_id : Z) (cp : Q * Q) (region : Z)
  : M bool :=
  self ← get;
  emit (EvIsInRegion unique_id cp region);;
  mret (is_in_region cp (region_polygon region self)).

(** Lines 189-197: the loop over the sample points, left at the first hit.
    The result is the pair [(in_r1, in_r2)]. *)
Fixpoint region_scan (unique_id : Z) (cps : list (Q * Q)) : M (bool * bool) :=
  match cps with
  | [] => mret (false, false)
  | cp :: rest =>
      hit1 ← call_is_in_region unique_id cp 1;
      if hit1 : bool then mret (true, false)
      else
        hit2 ← call_is_in_region unique_id cp 2;
        if hit2 : bool then mret (false, true)
        else region_scan unique_id rest
  end.

(** Lines 140-242: the body of the loop over the detections of a frame.
    Of the drawing of the box, the sample points and the labels, the model
    keeps the pixels that are handed to [cv2], which raises on a coordinate
    that is no C [int]. *)
Definition process_detection (d : list Z * Z * Z) : M unit :=
  let '(box, cls_val, yolo_id) := d in
  if cls_val =? 28 then
    '(x1, y1, x2, y2) ← unpack4 box;
    unique_id ← resolve_custom_id yolo_id;
    self ← get;
    match object_region_assignments self !! unique_id with
    | Some assigned_region =>
        draw (drawn_frozen x1 y1 x2 y2)                (* continue *)
    | None =>
        '(in_r1, in_r2) ← region_scan unique_id (check_points x1 y1 x2 y2);
        (if in_r1 : bool then
           assign_region unique_id 1;;
           print (MsgAssigned unique_id 1)
         else if in_r2 : bool then
           assign_region unique_id 2;;
           print (MsgAssigned unique_id 2)
         else mret tt);;
        draw (drawn_scanned x1 y1 x2 y2)
    end
  else mret tt.

(** Lines 135-242: the body of the [try]. *)
Definition tracking_block (b : Boxes) (track_ids : list Z) : M unit :=
  let boxes := boxes_xyxy b in
  classes ← match boxes_cls b with
            | Some cls => mret cls
            | None => raise AttributeError
            end;
  for_each process_detection (zip3 boxes classes track_ids).

(** Lines 123-131: the class statistics of the frame, and the classes seen
    printed for the first ten frames. *)
Definition class_statistics (b : Boxes) (frame_count : Z) : M unit :=
  match boxes_cls b with
  | Some classes_this_frame =>
      count_classes classes_this_frame;;
      when (frame_count <=? 10)
        (print (MsgDetectedClasses frame_count (np_unique classes_this_frame)))
  | None => mret tt
  end.

Definition no_detections (frame_count : Z) : M unit :=
  when (frame_count `mod` 10 =? 0) (print MsgNoDetections).

(** [process_frame], with the result of [self.model.track] on the frame in
    place of the frame itself.  The calls that draw the regions and the
    statistics on the output frame ([draw_regions], [draw_statistics]) are
    left out; the numbers that the last one writes are those of
    [draw_statistics] in the state in which the method ends. *)
Definition process_frame (results : list Results) (frame_count : Z) : M unit :=
  match results with
  | r0 :: _ =>
      match boxes r0 with
      | Some b =>
          if (0 <? length (boxes_xyxy b))%nat then
            class_statistics b frame_count;;
            match boxes_id b with
            | Some track_ids =>
                try_except (tracking_block b track_ids)
                  (λ e, print (MsgErrorTracking e))
            | None =>
                when (frame_count `mod` 10 =? 0) (print MsgNoTrackingIDs)
            end
          else no_detections frame_count
      | None => no_detections frame_count
      end
  | [] => no_detections frame_count
  end.

(** The [while] loop of [process_video] over the frames that the capture
    delivers; [frame_count] is the number of frames read so far. *)
Fixpoint video_loop (frame_count : Z) (frames : list FrameInput) : M unit :=
  match frames with
  | [] => print MsgFrameEmpty
  | f :: rest =>
      let frame_count := frame_count + 1 in
      when (frame_count `mod` 10 =? 0) (print (MsgProcessingFrame frame_count));;
      process_frame (track f) frame_count;;
      if quit_key f then mret tt else video_loop frame_count rest
  end.

(** [process_video]: the loop, then the final counts (lines 283-290) and the
    class statistics (lines 292-295). *)
Definition process_video (frames : list FrameInput) : M unit :=
  video_loop 0 frames;;
  self ← get;
  let '(total_count, region1_count, region2_count) := draw_statistics self in
  print (MsgFinalCounts total_count region1_count region2_count);;
  for_each (λ kv, print (MsgClassStatistics kv.1 kv.2)) (class_counts self).

End Methods.

(** [__init__]: the polygons are built from the configured points, the
    registry and the ledger start empty and the first identity is 1. *)
Definition __init__ (region1_points region2_points : list (Q * Q))
  : option RegionPersistentCounter :=
  region_polygon1 ← Shapely.Polygon region1_points;
  region_polygon2 ← Shapely.Polygon region2_points;
  Some (mkCounter region_polygon1 region_polygon2 ∅ 1 ∅ []).

(* ===================================================================== *)
(** ** Concrete regions, detections and frames *)
(* ===================================================================== *)

(** The corners of the axis-parallel rectangle [xlo,xhi] x [ylo,yhi]. *)
Definition rectangle (xlo xhi ylo yhi : Z) : list (Q * Q) :=
  [ (inject_Z xlo, inject_Z ylo); (inject_Z xhi, inject_Z ylo);
    (inject_Z xhi, inject_Z yhi); (inject_Z xlo, inject_Z yhi) ].

(** The polygon that [Polygon] builds from the corners of a rectangle. *)
Definition rectangle_polygon (xlo xhi ylo yhi : Z) : Shapely.polygon :=
  Shapely.mkPolygon (rectangle xlo xhi ylo yhi ++ [(inject_Z xlo, inject_Z ylo)]).

(** A counter whose regions are two rectangles, with a given registry,
    counter and ledger. *)
Definition counter_with (region1 region2 : Shapely.polygon)
    (registry : list (Z * Z)) (next : Z) (ledger : list (Z * Z))
  : RegionPersistentCounter :=
  mkCounter region1 region2 (list_to_map registry) next (list_to_map ledger) [].

(** A frame with a single detection, after which the run goes on. *)
Definition single_detection (box : list Z) (cls_val yolo_id : Z) : FrameInput :=
  mkFrame [mkResults (Some (mkBoxes [box] (Some [cls_val]) (Some [yolo_id])))] false.

(** Region 1 of the worked example: the square x, y in [150,250]. *)
Definition region_a : Shapely.polygon := rectangle_polygon 150 250 150 250.

(** A region far away from the boxes of the examples. *)
Definition region_far : Shapely.polygon := rectangle_polygon 1000 1100 1000 1100.

(** A counter at the start of a run. *)
Definition start_a : RegionPersistentCounter :=
  counter_with region_a region_far [] 1 [].

(** A counter in which tracker id 7 is identity 1, frozen in Region 1. *)
Definition frozen_a : RegionPersistentCounter :=
  counter_with region_a region_far [(7, 1)] 2 [(1, 1)].

(** A frame whose second box has three values only. *)
Definition broken_boxes : Boxes :=
  mkBoxes [[100; 100; 200; 200]; [1; 2; 3]; [0; 0; 10; 10]]
    (Some [28; 28; 28]) (Some [7; 8; 9]).

Definition broken_frame : FrameInput :=
  mkFrame [mkResults (Some broken_boxes)] false.

(** The counter and the trace of the guarded block at the point where
    [broken_frame], processed from [start_a], raises. *)
Definition after_broken_frame : RegionPersistentCounter :=
  mkCounter region_a region_far (list_to_map [(7, 1)]) 2 (list_to_map [(1, 1)])
    [(28, 3)].

Definition broken_frame_trace : list event :=
  [ EvIssue 7 1;
    EvIsInRegion 1 (inject_Z 200, inject_Z 100) 1;
    EvIsInRegion 1 (inject_Z 200, inject_Z 100) 2;
    EvIsInRegion 1 (inject_Z 100, inject_Z 200) 1;
    EvIsInRegion 1 (inject_Z 100, inject_Z 200) 2;
    EvIsInRegion 1 (inject_Z 200, inject_Z 200) 1;
    EvPrint (MsgAssigned 1 1) ].

(** Overlapping regions: Region 2 is the strip x in [150,250], y in [50,250],
    which covers Region 1 ([region_a]). *)
Definition region_strip : Shapely.polygon := rectangle_polygon 150 250 50 250.

Definition start_overlap : RegionPersistentCounter :=
  counter_with region_a region_strip [] 1 [].

(** The same two regions in the other order: Region 1 is the strip,
    Region 2 the square inside it. *)
Definition start_strip_first : RegionPersistentCounter :=
  counter_with region_strip region_a [] 1 [].

(** Two small regions: Region 1 around the right midpoint (200,150) and
    Region 2 around the bottom midpoint (150,200) of the box
    (100,100)-(200,200). *)
Definition region_right : Shapely.polygon := rectangle_polygon 190 210 140 160.
Definition region_bottom : Shapely.polygon := rectangle_polygon 140 160 190 210.

Definition start_midpoints : RegionPersistentCounter :=
  counter_with region_right region_bottom [] 1 [].

(* ===================================================================== *)
(** ** The runs of the loop body, case by case *)
(* ===================================================================== *)

(** What the scan decides: the state after the loop body and the line it
    prints, from the pair [(in_r1, in_r2)] (lines 200-207). *)
Definition commit (unique_id : Z) (in_r1 in_r2 : bool)
    (self : RegionPersistentCounter) : RegionPersistentCounter :=
  if in_r1 then set_assignment unique_id 1 self
  else if in_r2 then set_assignment unique_id 2 self
  else self.

Definition commit_trace (unique_id : Z) (in_r1 in_r2 : bool) : list event :=
  if in_r1 then [EvPrint (MsgAssigned unique_id 1)]
  else if in_r2 then [EvPrint (MsgAssigned unique_id 2)]
  else [].

(** The four ways in which [process_detection] runs on a detection: the
    class is not the suitcase class; the box cannot be unpacked; the identity
    already has a region; the identity has none and the sample points are
    scanned.  In the last two the detection is drawn at the end, which
    decides whether the loop body returns or raises. *)
Inductive detection_run (contains : Shapely.polygon -> Shapely.point -> bool)
    (s : RegionPersistentCounter) : list Z * Z * Z -> result unit -> Prop :=
| run_ignored box cls_val yolo_id :
    cls_val ≠ 28 ->
    detection_run contains s (box, cls_val, yolo_id) (mkResult s [] (Normal tt))
| run_malformed box yolo_id :
    (forall x1 y1 x2 y2, box ≠ [x1; y1; x2; y2]) ->
    detection_run contains s (box, 28, yolo_id) (mkResult s [] (Raise ValueError))
| run_frozen x1 y1 x2 y2 yolo_id s1 t1 unique_id assigned_region :
    resolve_custom_id yolo_id s = mkResult s1 t1 (Normal unique_id) ->
    object_region_assignments s1 !! unique_id = Some assigned_region ->
    detection_run contains s ([x1; y1; x2; y2], 28, yolo_id)
      (mkResult s1 t1 (draw_outcome (drawn_frozen x1 y1 x2 y2)))
| run_scanned x1 y1 x2 y2 yolo_id s1 t1 unique_id t2 in_r1 in_r2 :
    resolve_custom_id yolo_id s = mkResult s1 t1 (Normal unique_id) ->
    object_region_assignments s1 !! unique_id = None ->
    region_scan contains unique_id (check_points x1 y1 x2 y2) s1
      = mkResult s1 t2 (Normal (in_r1, in_r2)) ->
    detection_run contains s ([x1; y1; x2; y2], 28, yolo_id)
      (mkResult (commit unique_id in_r1 in_r2 s1)
         (t1 ++ t2 ++ commit_trace unique_id in_r1 in_r2)
         (draw_outcome (drawn_scanned x1 y1 x2 y2))).

(* ===================================================================== *)
(** ** Relations on runs *)
(* ===================================================================== *)

(** A relation between the state before a run, its trace and the state
    after it is a step relation when it holds of the empty run, of printing
    and of the class statistics, and composes along sequencing. *)
Record step_relation
    (R : RegionPersistentCounter -> list event -> RegionPersistentCounter -> Prop)
  : Prop := {
  sr_refl : forall s, R s [] s;
  sr_trans : forall s t1 s1 t2 s2, R s t1 s1 -> R s1 t2 s2 -> R s (t1 ++ t2) s2;
  sr_print : forall s m, R s [EvPrint m] s;
  sr_counts : forall s classes, R s [] (add_class_counts classes s)
}.

(** Every run of [m] is in [R]. *)
Definition respects
    (R : RegionPersistentCounter -> list event -> RegionPersistentCounter -> Prop)
    {A} (m : M A) : Prop :=
  forall s, R s (trace (m s)) (final (m s)).

(** The registry entries created along a trace, in order. *)
Fixpoint issues (t : list event) : list (Z * Z) :=
  match t with
  | [] => []
  | EvIssue yolo_id unique_id :: rest => (yolo_id, unique_id) :: issues rest
  | _ :: rest => issues rest
  end.

(** The membership tests made along a trace, in order. *)
Fixpoint tests (t : list event) : list (Z * (Q * Q) * Z) :=
  match t with
  | [] => []
  | EvIsInRegion unique_id cp region :: rest => (unique_id, cp, region) :: tests rest
  | _ :: rest => tests rest
  end.

(** The tests of the points of [cps] when none of them is in a region: for
    each point, Region 1 and then Region 2. *)
Definition schedule (unique_id : Z) (cps : list (Q * Q)) : list (Z * (Q * Q) * Z) :=
  cps ≫= λ cp, [(unique_id, cp, 1); (unique_id, cp, 2)].

Definition both_tests (unique_id : Z) (cps : list (Q * Q)) : list event :=
  cps ≫= λ cp, [EvIsInRegion unique_id cp 1; EvIsInRegion unique_id cp 2].

(** The run keeps what the registry and the ledger hold, keeps the polygons,
    and tests membership only for identities without a region. *)
Definition extends (s : RegionPersistentCounter) (t : list event)
    (s' : RegionPersistentCounter) : Prop :=
  region_polygon1 s' = region_polygon1 s
  /\ region_polygon2 s' = region_polygon2 s
  /\ yolo_id_to_custom_id s ⊆ yolo_id_to_custom_id s'
  /\ object_region_assignments s ⊆ object_region_assignments s'
  /\ (forall u cp k, EvIsInRegion u cp k ∈ t -> object_region_assignments s !! u = None).

(** Among the sample points [pre], the first that lies in a region, if
    there is one, lies in Region 1. *)
Fixpoint region1_first (contains : Shapely.polygon -> Shapely.point -> bool)
    (s : RegionPersistentCounter) (pre : list (Q * Q)) : bool :=
  match pre with
  | [] => true
  | p :: rest =>
      if is_in_region contains p (region_polygon1 s) then true
      else if is_in_region contains p (region_polygon2 s) then false
      else region1_first contains s rest
  end.

(** Every region recorded in the ledger is 1 or 2. *)
Definition ledger_valid (s : RegionPersistentCounter) : Prop :=
  forall u k, object_region_assignments s !! u = Some k -> k = 1 \/ k = 2.

(** The identities issued along the run are the consecutive integers from
    the counter on, the counter advances by their number, and the registry
    gains exactly the entries issued, each for a tracker id it did not know. *)
Definition issuance (s : RegionPersistentCounter) (t : list event)
    (s' : RegionPersistentCounter) : Prop :=
  (issues t).*2 = seqZ (next_custom_id s) (Z.of_nat (length (issues t)))
  /\ next_custom_id s' = next_custom_id s + Z.of_nat (length (issues t))
  /\ (forall y u, yolo_id_to_custom_id s' !! y = Some u <->
                  yolo_id_to_custom_id s !! y = Some u \/ (y, u) ∈ issues t)
  /\ (forall y u, (y, u) ∈ issues t -> yolo_id_to_custom_id s !! y = None)
  /\ NoDup (issues t).*1.

(** The states that a run started in [s0] goes through: the loop body and
    the class statistics are the only code that writes to the counter. *)
Inductive reachable (contains : Shapely.polygon -> Shapely.point -> bool)
    (s0 : RegionPersistentCounter) : RegionPersistentCounter -> Prop :=
| reach_start : reachable contains s0 s0
| reach_detection s d :
    reachable contains s0 s ->
    reachable contains s0 (final (process_detection contains d s))
| reach_counts s classes :
    reachable contains s0 s ->
    reachable contains s0 (add_class_counts classes s).

(** The counts that [draw_statistics] reports add up and cover the ledger. *)
Definition counts_consistent (s : RegionPersistentCounter) : Prop :=
  let '(total_count, region1_count, region2_count) := draw_statistics s in
  region1_count + region2_count = total_count
  /\ total_count = Z.of_nat (size (object_region_assignments s)).

(* ===================================================================== *)
(** ** Further notions used in the statements about the whole class *)
(* ===================================================================== *)

(** [d.get(c, 0)] on a dictionary in insertion order. *)
Fixpoint dict_get (c : Z) (d : list (Z * Z)) : Z :=
  match d with
  | [] => 0
  | (k, v) :: rest => if decide (k = c) then v else dict_get c rest
  end.

(** The number of occurrences of a class in the class column of a frame. *)
Definition occurrences (c : Z) (classes : list Z) : Z :=
  Z.of_nat (length (filter (λ c', c' = c) classes)).

(** The lines [Unique ID u assigned to Region k] of a trace, in order. *)
Fixpoint announced (t : list event) : list (Z * Z) :=
  match t with
  | [] => []
  | EvPrint (MsgAssigned unique_id region) :: rest =>
      (unique_id, region) :: announced rest
  | _ :: rest => announced rest
  end.

(** The registry maps distinct tracker ids to distinct identities, all of
    them between 1 and the identity to be issued next, and holds as many
    entries as identities were issued; the ledger only knows issued
    identities. *)
Definition registry_valid (s : RegionPersistentCounter) : Prop :=
  (forall y u, yolo_id_to_custom_id s !! y = Some u -> 1 <= u < next_custom_id s)
  /\ (forall y1 y2 u,
        yolo_id_to_custom_id s !! y1 = Some u ->
        yolo_id_to_custom_id s !! y2 = Some u -> y1 = y2)
  /\ Z.of_nat (size (yolo_id_to_custom_id s)) = next_custom_id s - 1
  /\ (forall u k,
        object_region_assignments s !! u = Some k ->
        exists y, yolo_id_to_custom_id s !! y = Some u).

(** The ledger gains exactly the entries announced along the run, each for
    an identity that had no region. *)
Definition announcement (s : RegionPersistentCounter) (t : list event)
    (s' : RegionPersistentCounter) : Prop :=
  (forall u k, object_region_assignments s' !! u = Some k <->
               object_region_assignments s !! u = Some k \/ (u, k) ∈ announced t)
  /\ (forall u k, (u, k) ∈ announced t -> object_region_assignments s !! u = None)
  /\ NoDup (announced t).*1.

(** No count of [draw_statistics] goes down. *)
Definition counts_grow (s : RegionPersistentCounter) (t : list event)
    (s' : RegionPersistentCounter) : Prop :=
  count_assigned 1 (object_region_assignments s)
    <= count_assigned 1 (object_region_assignments s')
  /\ count_assigned 2 (object_region_assignments s)
      <= count_assigned 2 (object_region_assignments s').

(** The tracker output has nothing to track: no result, no boxes, an empty
    list of boxes, or no track-id column (lines 121 and 133). *)
Definition nothing_to_track (results : list Results) : Prop :=
  match results with
  | [] => True
  | r0 :: _ =>
      match boxes r0 with
      | None => True
      | Some b => boxes_xyxy b = [] \/ boxes_id b = None
      end
  end.

(** A step relation that need not hold of the announcement of an
    assignment: that line is printed by the loop body only. *)
Record quiet_relation
    (R : RegionPersistentCounter -> list event -> RegionPersistentCounter -> Prop)
  : Prop := {
  qr_refl : forall s, R s [] s;
  qr_trans : forall s t1 s1 t2 s2, R s t1 s1 -> R s1 t2 s2 -> R s (t1 ++ t2) s2;
  qr_print : forall s m, (forall u k, m ≠ MsgAssigned u k) -> R s [EvPrint m] s;
  qr_counts : forall s classes, R s [] (add_class_counts classes s)
}.

(** A counter in which tracker id 7 is identity 1 and has no region yet. *)
Definition pending_a : RegionPersistentCounter :=
  counter_with region_a region_far [(7, 1)] 2 [].

(** A suitcase inside Region 1 for which the tracker gave no track id. *)
Definition untracked_results : list Results :=
  [mkResults (Some (mkBoxes [[100; 100; 200; 200]] (Some [28]) None))].

(** A frame with a track-id column and no class column. *)
Definition classless_boxes : Boxes :=
  mkBoxes [[100; 100; 200; 200]] None (Some [7]).

(** A frame after which the user quits. *)
Definition last_frame : FrameInput :=
  mkFrame [mkResults (Some (mkBoxes [[100; 100; 200; 200]] (Some [28]) (Some [7])))]
    true.

(** The tracker ids of the suitcase detections of a frame, in order. *)
Definition suitcase_ids (ds : list (list Z * Z * Z)) : list Z :=
  (filter (λ d : list Z * Z * Z, d.1.2 = 28) ds).*2.

(** The ids of a list that are not known yet, each at its first occurrence. *)
Fixpoint first_seen (known : gset Z) (ys : list Z) : list Z :=
  match ys with
  | [] => []
  | y :: rest =>
      if decide (y ∈ known) then first_seen known rest
      else y :: first_seen ({[y]} ∪ known) rest
  end.

(** Every suitcase detection of the list has a box of four values, and the
    box is pixel-sized. *)
Definition suitcases_well_formed (ds : list (list Z * Z * Z)) : Prop :=
  Forall (λ d : list Z * Z * Z,
            d.1.2 = 28 ->
            exists x1 y1 x2 y2,
              d.1.1 = [x1; y1; x2; y2] /\ pixel_box x1 y1 x2 y2) ds.

(* ===================================================================== *)
(** ** Comparisons on rationals *)
(* ===================================================================== *)










(* ===================================================================== *)
(** ** Equations of the monad *)
(* ===================================================================== *)

Lemma bind_Normal {A B} (m : M A) (f : A -> M B) s s1 t1 a s2 t2 v :
  m s = mkResult s1 t1 (Normal a) ->
  f a s1 = mkResult s2 t2 v ->
  (m ≫= f) s = mkResult s2 (t1 ++ t2) v.
Proof.
  intros Hm Hf. unfold mbind, M_bind, bind. rewrite Hm. cbn. rewrite Hf. reflexivity.
Qed.

Lemma bind_Raise {A B} (m : M A) (f : A -> M B) s s1 t1 e :
  m s = mkResult s1 t1 (Raise e) ->
  (m ≫= f) s = mkResult s1 t1 (Raise e).
Proof. intros Hm. unfold mbind, M_bind, bind. rewrite Hm. reflexivity. Qed.

Lemma result_eta {A} (r : result A) : r = mkResult (final r) (trace r) (value r).
Proof. destruct r; reflexivity. Qed.

(** The result of a bind in terms of the results of its parts. *)
Lemma bind_eq {A B} (m : M A) (f : A -> M B) s :
  (m ≫= f) s =
  match value (m s) with
  | Normal a =>
      mkResult (final (f a (final (m s))))
        (trace (m s) ++ trace (f a (final (m s))))
        (value (f a (final (m s))))
  | Raise e => mkResult (final (m s)) (trace (m s)) (Raise e)
  end.
Proof. reflexivity. Qed.

Lemma for_each_cons {X} (body : X -> M unit) x rest s :
  for_each body (x :: rest) s = (body x ≫= λ _, for_each body rest) s.
Proof. reflexivity. Qed.

(* ===================================================================== *)
(** ** Pixel-sized boxes: exact mid-points, drawing without error *)
(* ===================================================================== *)

Lemma wrap64_small n :
  -9223372036854775808 <= n < 9223372036854775808 -> wrap64 n = n.
Proof.
  intros H. unfold wrap64. rewrite Z.mod_small by lia. lia.
Qed.

Lemma float64_of_int_small n :
  -9007199254740992 < n < 9007199254740992 -> float64_of_int n = n.
Proof.
  intros H. unfold float64_of_int.
  destruct (Z.ltb_spec (Z.abs n) 9007199254740992); [reflexivity | lia].
Qed.

(** Below 2^52 in absolute value the mid-point of two integers is their
    exact half sum. *)
Lemma true_div_midpoint (a b : Z) :
  -4503599627370496 < a < 4503599627370496 ->
  -4503599627370496 < b < 4503599627370496 ->
  (true_div (wrap64 (a + b)) 2 == (inject_Z a + inject_Z b) / 2)%Q.
Proof.
  intros Ha Hb. unfold true_div.
  rewrite Qred_correct, wrap64_small, float64_of_int_small by lia.
  change (float64_of_int 2) with 2. rewrite inject_Z_plus. reflexivity.
Qed.

Lemma int_of_inject_Z n : int_of (inject_Z n) = n.
Proof.
  unfold int_of. destruct (Qle_bool 0 (inject_Z n));
    [apply Qfloor_Z | apply Qceiling_Z].
Qed.

Lemma int_of_between lo hi v :
  (inject_Z lo <= v)%Q -> (v <= inject_Z hi)%Q -> lo <= int_of v <= hi.
Proof.
  intros Hlo Hhi. unfold int_of. destruct (Qle_bool 0 v).
  - rewrite <- (Qfloor_Z lo), <- (Qfloor_Z hi).
    split; apply Qfloor_resp_le; assumption.
  - rewrite <- (Qceiling_Z lo), <- (Qceiling_Z hi).
    split; apply Qceiling_resp_le; assumption.
Qed.

Lemma int_of_midpoint lo hi a b :
  -4503599627370496 < a < 4503599627370496 ->
  -4503599627370496 < b < 4503599627370496 ->
  lo <= a <= hi -> lo <= b <= hi ->
  lo <= int_of (true_div (wrap64 (a + b)) 2) <= hi.
Proof.
  intros Ha Hb [Hla Hah] [Hlb Hbh].
  pose proof (true_div_midpoint a b Ha Hb) as Hmid.
  rewrite Zle_Qle in Hla, Hah, Hlb, Hbh.
  assert (E : ((inject_Z a + inject_Z b) / 2
               == (inject_Z a + inject_Z b) * (1 # 2))%Q) by reflexivity.
  apply int_of_between; rewrite Hmid, E; lra.
Qed.

Lemma fits_int_true n : -2147483648 <= n <= 2147483647 -> fits_int n = true.
Proof.
  intros [H1 H2]. unfold fits_int.
  apply andb_true_intro. split; apply Z.leb_le; assumption.
Qed.

(** A pixel-sized box is drawn without error, whether its identity has a
    region or not. *)
Lemma draw_frozen_pixel_box x1 y1 x2 y2 :
  pixel_box x1 y1 x2 y2 -> draw_outcome (drawn_frozen x1 y1 x2 y2) = Normal tt.
Proof.
  intros (Hx1 & Hy1 & Hx2 & Hy2). unfold draw_outcome, drawn_frozen.
  cbn [forallb fst snd]. rewrite !wrap64_small by lia.
  rewrite !fits_int_true by lia. reflexivity.
Qed.

Lemma draw_scanned_pixel_box x1 y1 x2 y2 :
  pixel_box x1 y1 x2 y2 -> draw_outcome (drawn_scanned x1 y1 x2 y2) = Normal tt.
Proof.
  intros (Hx1 & Hy1 & Hx2 & Hy2). unfold draw_outcome, drawn_scanned, check_points.
  cbn [forallb fst snd map app]. rewrite !int_of_inject_Z, !wrap64_small by lia.
  rewrite !(fits_int_true x1), !(fits_int_true x2), !(fits_int_true y1),
    !(fits_int_true y2), (fits_int_true (y1 - 10)), (fits_int_true (y2 + 20)) by lia.
  pose proof (int_of_midpoint (-2147483648) 2147483647 x1 x2) as Hmx.
  pose proof (int_of_midpoint (-2147483648) 2147483647 y1 y2) as Hmy.
  rewrite !wrap64_small in Hmx, Hmy by lia.
  rewrite !fits_int_true by (first [apply Hmx | apply Hmy]; lia). reflexivity.
Qed.

(* ===================================================================== *)
(** ** Geometry: the boundary of a polygon is not contained *)
(* ===================================================================== *)

Module ShapelyFacts.
Import Shapely.















(** *** Rectangles: the test is the four strict inequalities *)







End ShapelyFacts.

(* ===================================================================== *)
(** ** The loop body, step by step *)
(* ===================================================================== *)

Section RunFacts.

Variable contains : Shapely.polygon -> Shapely.point -> bool.

Lemma call_is_in_region_eq u cp k s :
  call_is_in_region contains u cp k s =
  mkResult s [EvIsInRegion u cp k]
    (Normal (is_in_region contains cp (region_polygon k s))).
Proof. reflexivity. Qed.

Lemma region_scan_cons u cp rest s :
  region_scan contains u (cp :: rest) s =
  if is_in_region contains cp (region_polygon1 s)
  then mkResult s [EvIsInRegion u cp 1] (Normal (true, false))
  else if is_in_region contains cp (region_polygon2 s)
  then mkResult s [EvIsInRegion u cp 1; EvIsInRegion u cp 2] (Normal (false, true))
  else
    let r := region_scan contains u rest s in
    mkResult (final r) (EvIsInRegion u cp 1 :: EvIsInRegion u cp 2 :: trace r)
      (value r).
Proof.
  cbn [region_scan]. rewrite bind_eq, call_is_in_region_eq. cbn [value final trace].
  unfold region_polygon. cbn [Z.eqb Pos.eqb].
  destruct (is_in_region contains cp (region_polygon1 s)); [reflexivity |].
  rewrite bind_eq, call_is_in_region_eq. cbn [value final trace].
  unfold region_polygon. cbn [Z.eqb Pos.eqb].
  destruct (is_in_region contains cp (region_polygon2 s)); reflexivity.
Qed.

(** The scan never raises and never writes; it only makes membership tests,
    all of them for the identity at hand and on points of the list. *)
Lemma region_scan_run u cps s :
  exists t in_r1 in_r2,
    region_scan contains u cps s = mkResult s t (Normal (in_r1, in_r2))
    /\ (forall ev, ev ∈ t -> exists cp k, ev = EvIsInRegion u cp k /\ cp ∈ cps).
Proof.
  induction cps as [| cp rest IH].
  - exists [], false, false. split; [reflexivity |]. intros ev Hev. inversion Hev.
  - rewrite region_scan_cons.
    destruct (is_in_region contains cp (region_polygon1 s)).
    { eexists _, _, _. split; [reflexivity |].
      intros ev Hev. apply list_elem_of_singleton in Hev as ->.
      exists cp, 1. split; [reflexivity | left]. }
    destruct (is_in_region contains cp (region_polygon2 s)).
    { eexists _, _, _. split; [reflexivity |].
      intros ev Hev. exists cp.
      apply elem_of_cons in Hev as [-> | Hev]; [exists 1; split; [reflexivity | left] |].
      apply list_elem_of_singleton in Hev as ->. exists 2. split; [reflexivity | left]. }
    destruct IH as (t & b1 & b2 & Heq & Hev). rewrite Heq. cbn.
    eexists _, _, _. split; [reflexivity |].
    intros ev Hin.
    apply elem_of_cons in Hin as [-> | Hin]; [exists cp, 1; split; [reflexivity | left] |].
    apply elem_of_cons in Hin as [-> | Hin]; [exists cp, 2; split; [reflexivity | left] |].
    destruct (Hev ev Hin) as (cp' & k & -> & Hcp). exists cp', k. split; [reflexivity | by right].
Qed.

Lemma resolve_seen y u s :
  yolo_id_to_custom_id s !! y = Some u ->
  resolve_custom_id y s = mkResult s [] (Normal u).
Proof.
  intros H. unfold resolve_custom_id. rewrite bind_eq. cbn. rewrite H. reflexivity.
Qed.

Lemma resolve_new y s :
  yolo_id_to_custom_id s !! y = None ->
  resolve_custom_id y s =
  mkResult (register_id y s) [EvIssue y (next_custom_id s)]
    (Normal (next_custom_id s)).
Proof.
  intros H. unfold resolve_custom_id. rewrite bind_eq. cbn. rewrite H. reflexivity.
Qed.

(** Resolution never raises. *)
Lemma resolve_run y s :
  exists s1 t1 u, resolve_custom_id y s = mkResult s1 t1 (Normal u).
Proof.
  destruct (yolo_id_to_custom_id s !! y) as [u |] eqn:E.
  - rewrite (resolve_seen _ _ _ E). eauto.
  - rewrite (resolve_new _ _ E). eauto.
Qed.

Lemma resolve_inv y s s1 t1 u :
  resolve_custom_id y s = mkResult s1 t1 (Normal u) ->
  (yolo_id_to_custom_id s !! y = Some u /\ s1 = s /\ t1 = [])
  \/ (yolo_id_to_custom_id s !! y = None /\ u = next_custom_id s
      /\ s1 = register_id y s /\ t1 = [EvIssue y u]).
Proof.
  destruct (yolo_id_to_custom_id s !! y) as [u' |] eqn:E.
  - rewrite (resolve_seen _ _ _ E). intros [= <- <- <-]. left. auto.
  - rewrite (resolve_new _ _ E). intros [= <- <- <-]. right. auto.
Qed.

(** Every run of the loop body is one of the four cases. *)
Lemma process_detection_run d s :
  detection_run contains s d (process_detection contains d s).
Proof.
  destruct d as [[box cls_val] yolo_id]. unfold process_detection.
  destruct (cls_val =? 28) eqn:Ecls.
  2: { apply Z.eqb_neq in Ecls. by apply run_ignored. }
  apply Z.eqb_eq in Ecls as ->.
  destruct box as [| x1 [| y1 [| x2 [| y2 [| extra box]]]]];
    try (rewrite bind_eq; cbn; apply run_malformed; intros; discriminate).
  destruct (resolve_run yolo_id s) as (s1 & t1 & u & Hres).
  rewrite bind_eq. cbn [unpack4 mret M_ret ret value final trace app].
  rewrite bind_eq, Hres. cbn [value final trace].
  rewrite bind_eq. cbn [get value final trace app].
  destruct (object_region_assignments s1 !! u) as [k |] eqn:Eass.
  - cbn. rewrite app_nil_r. eapply run_frozen; eauto.
  - destruct (region_scan_run u (check_points x1 y1 x2 y2) s1)
      as (t2 & in_r1 & in_r2 & Hscan & _).
    rewrite bind_eq, Hscan. cbn [value final trace].
    replace (mkResult _ _ _) with
      (mkResult (commit u in_r1 in_r2 s1) (t1 ++ t2 ++ commit_trace u in_r1 in_r2)
         (draw_outcome (drawn_scanned x1 y1 x2 y2))).
    { eapply run_scanned; eauto. }
    unfold commit, commit_trace. rewrite bind_eq.
    destruct in_r1; [cbn; rewrite app_nil_r; reflexivity |].
    destruct in_r2; cbn; rewrite !app_nil_r; reflexivity.
Qed.

End RunFacts.

(* ===================================================================== *)
(** ** From the loop body to the run *)
(* ===================================================================== *)

Section Lifting.

Variable contains : Shapely.polygon -> Shapely.point -> bool.
Variable R : RegionPersistentCounter -> list event -> RegionPersistentCounter -> Prop.
Hypothesis HR : step_relation R.

Lemma respects_ret {A} (a : A) : respects R (mret a : M A).
Proof. intros s. apply (sr_refl R HR). Qed.

Lemma respects_print m : respects R (print m).
Proof. intros s. apply (sr_print R HR). Qed.

Lemma respects_bind {A B} (m : M A) (f : A -> M B) :
  respects R m -> (forall a, respects R (f a)) -> respects R (m ≫= f).
Proof.
  intros Hm Hf s. rewrite bind_eq. specialize (Hm s).
  destruct (value (m s)) as [a | e]; cbn; [| exact Hm].
  eapply (sr_trans R HR); [exact Hm | apply Hf].
Qed.

Lemma respects_when b (m : M unit) : respects R m -> respects R (when b m).
Proof. intros Hm. destruct b; [exact Hm | apply (respects_ret tt)]. Qed.

Lemma respects_for_each {X} (body : X -> M unit) (l : list X) :
  (forall x, respects R (body x)) -> respects R (for_each body l).
Proof.
  intros Hbody. induction l as [| x rest IH]; [apply (respects_ret tt) |].
  intros s. rewrite for_each_cons. apply respects_bind; auto.
Qed.

Lemma respects_try_except (body : M unit) (handler : exn -> M unit) :
  respects R body -> (forall e, respects R (handler e)) ->
  respects R (try_except body handler).
Proof.
  intros Hb Hh s. unfold try_except. specialize (Hb s).
  destruct (value (body s)) as [a | e]; [exact Hb |]. cbn.
  eapply (sr_trans R HR); [exact Hb | apply Hh].
Qed.

Hypothesis Hbody : forall d, respects R (process_detection contains d).

Lemma respects_tracking_block b track_ids :
  respects R (tracking_block contains b track_ids).
Proof.
  unfold tracking_block. apply respects_bind.
  - destruct (boxes_cls b); intros s; apply (sr_refl R HR).
  - intros classes. apply respects_for_each, Hbody.
Qed.

Lemma respects_no_detections frame_count : respects R (no_detections frame_count).
Proof. apply respects_when, respects_print. Qed.

Lemma respects_class_statistics b frame_count :
  respects R (class_statistics b frame_count).
Proof.
  unfold class_statistics.
  destruct (boxes_cls b) as [classes |]; [| apply (respects_ret tt)].
  apply respects_bind.
  - intros s. apply (sr_counts R HR).
  - intros _. apply respects_when, respects_print.
Qed.

Lemma respects_process_frame results frame_count :
  respects R (process_frame contains results frame_count).
Proof.
  unfold process_frame.
  destruct results as [| r0 rest]; [apply respects_no_detections |].
  destruct (boxes r0) as [b |]; [| apply respects_no_detections].
  destruct (0 <? length (boxes_xyxy b))%nat; [| apply respects_no_detections].
  apply respects_bind; [apply respects_class_statistics |].
  intros _. destruct (boxes_id b) as [track_ids |].
  -
    apply respects_try_except; [apply respects_tracking_block |].
    intros e. apply respects_print.
  - apply respects_when, respects_print.
Qed.

Lemma respects_video_loop frames : forall frame_count,
  respects R (video_loop contains frame_count frames).
Proof.
  induction frames as [| f rest IH]; intros frame_count; cbn [video_loop].
  - apply respects_print.
  - apply respects_bind; [apply respects_when, respects_print |].
    intros _. apply respects_bind; [apply respects_process_frame |].
    intros _. destruct (quit_key f); [apply (respects_ret tt) | apply IH].
Qed.

Lemma respects_process_video frames :
  respects R (process_video contains frames).
Proof.
  unfold process_video. apply respects_bind; [apply respects_video_loop |].
  intros _. apply respects_bind; [intros s; apply (sr_refl R HR) |].
  intros self. destruct (draw_statistics self) as [[total r1] r2].
  apply respects_bind; [apply respects_print |].
  intros _. apply respects_for_each. intros kv. apply respects_print.
Qed.

End Lifting.

(* ===================================================================== *)
(** ** The registry and the ledger only grow *)
(* ===================================================================== *)

Lemma extends_step_relation : step_relation extends.
Proof.
  split.
  - intros s. repeat split; try reflexivity. intros u cp k H. inversion H.
  - intros s t1 s1 t2 s2 (Hp1 & Hq1 & Hreg1 & Hled1 & Hev1) (Hp2 & Hq2 & Hreg2 & Hled2 & Hev2).
    repeat split; try congruence; try (etrans; eassumption).
    intros u cp k Hin. apply elem_of_app in Hin as [Hin | Hin]; [eauto |].
    specialize (Hev2 _ _ _ Hin).
    destruct (object_region_assignments s !! u) as [r |] eqn:E; [| reflexivity].
    eapply lookup_weaken in E; [| exact Hled1]. congruence.
  - intros s m. repeat split; try reflexivity.
    intros u cp k H. apply list_elem_of_singleton in H. discriminate.
  - intros s classes. repeat split; try reflexivity. intros u cp k H. inversion H.
Qed.

Lemma extends_resolve y s s1 t1 u :
  resolve_custom_id y s = mkResult s1 t1 (Normal u) ->
  extends s t1 s1
  /\ object_region_assignments s1 = object_region_assignments s
  /\ yolo_id_to_custom_id s1 !! y = Some u.
Proof.
  intros H. apply resolve_inv in H as [(Hy & -> & ->) | (Hy & -> & -> & ->)].
  - split; [apply (sr_refl _ extends_step_relation) | auto].
  - split; [| split; [reflexivity | apply lookup_insert_eq]].
    repeat split; try reflexivity.
    + cbn. by apply insert_subseteq.
    + intros u cp k H. apply list_elem_of_singleton in H. discriminate.
Qed.

Lemma commit_ledger u in_r1 in_r2 s :
  object_region_assignments (commit u in_r1 in_r2 s) =
  if in_r1 then <[u := 1]> (object_region_assignments s)
  else if in_r2 then <[u := 2]> (object_region_assignments s)
  else object_region_assignments s.
Proof. unfold commit. destruct in_r1, in_r2; reflexivity. Qed.

Lemma commit_other u in_r1 in_r2 s :
  region_polygon1 (commit u in_r1 in_r2 s) = region_polygon1 s
  /\ region_polygon2 (commit u in_r1 in_r2 s) = region_polygon2 s
  /\ yolo_id_to_custom_id (commit u in_r1 in_r2 s) = yolo_id_to_custom_id s
  /\ next_custom_id (commit u in_r1 in_r2 s) = next_custom_id s
  /\ class_counts (commit u in_r1 in_r2 s) = class_counts s.
Proof. unfold commit. destruct in_r1, in_r2; repeat split; reflexivity. Qed.

Lemma commit_trace_prints u in_r1 in_r2 ev :
  ev ∈ commit_trace u in_r1 in_r2 -> exists m, ev = EvPrint m.
Proof.
  unfold commit_trace. destruct in_r1, in_r2; intros H;
    try (apply list_elem_of_singleton in H; eauto); inversion H.
Qed.

Lemma extends_process_detection contains d :
  respects extends (process_detection contains d).
Proof.
  intros s.
  destruct (process_detection_run contains d s)
    as [box cls_val y Hcls | box y Hbox
       | x1 y1 x2 y2 y s1 t1 u k Hres Hass
       | x1 y1 x2 y2 y s1 t1 u t2 in_r1 in_r2 Hres Hass Hscan]; cbn [final trace].
  - apply (sr_refl _ extends_step_relation).
  - apply (sr_refl _ extends_step_relation).
  - apply (extends_resolve _ _ _ _ _ Hres).
  - destruct (extends_resolve _ _ _ _ _ Hres) as (Hext & Hled & _).
    eapply (sr_trans _ extends_step_relation); [exact Hext |].
    destruct (commit_other u in_r1 in_r2 s1) as (Hp & Hq & Hreg & _).
    repeat split; try assumption.
    + rewrite Hreg. reflexivity.
    + rewrite commit_ledger.
      destruct in_r1; [by apply insert_subseteq |].
      destruct in_r2; [by apply insert_subseteq | reflexivity].
    + intros u' cp k Hin. apply elem_of_app in Hin as [Hin | Hin].
      * destruct (region_scan_run contains u (check_points x1 y1 x2 y2) s1)
          as (t & b1 & b2 & Heq & Hev).
        rewrite Heq in Hscan. injection Hscan as <- _ _.
        destruct (Hev _ Hin) as (cp' & k' & [= -> _ _] & _). exact Hass.
      * apply commit_trace_prints in Hin as [m Hm]. discriminate.
Qed.

(* ===================================================================== *)
(** ** Permanence of assignments and of identities *)
(* ===================================================================== *)

(** C1 (permanence of assignment).  Once the ledger records a region for an
    identity, no run of [process_video], whatever the frames and the boxes
    in them, changes the recorded region, and the run makes no membership
    test for that identity. *)
Theorem permanence_of_assignment
    (contains : Shapely.polygon -> Shapely.point -> bool)
    (s : RegionPersistentCounter) (frames : list FrameInput) (u r : Z) :
  object_region_assignments s !! u = Some r ->
  object_region_assignments (final (process_video contains frames s)) !! u = Some r
  /\ forall cp k, EvIsInRegion u cp k ∉ trace (process_video contains frames s).
Proof.
  intros Hass.
  destruct (respects_process_video contains extends extends_step_relation
              (extends_process_detection contains) frames s)
    as (_ & _ & _ & Hled & Hev).
  split.
  - eapply lookup_weaken; eassumption.
  - intros cp k Hin. specialize (Hev _ _ _ Hin). congruence.
Qed.

(** Identity 1, frozen in Region 1, whose box then moves far outside both
    regions and later right over Region 2. *)
Lemma permanence_of_assignment_witness :
  object_region_assignments frozen_a !! 1 = Some 1
  /\ object_region_assignments
       (final (process_video Shapely.contains
                 [single_detection [500; 500; 600; 600] 28 7;
                  single_detection [1000; 1000; 1100; 1100] 28 7]
                 frozen_a)) !! 1
     = Some 1
  /\ forall cp k,
       EvIsInRegion 1 cp k ∉
       trace (process_video Shapely.contains
                [single_detection [500; 500; 600; 600] 28 7;
                 single_detection [1000; 1000; 1100; 1100] 28 7]
                frozen_a).
Proof.
  split; [vm_compute; reflexivity |].
  apply (permanence_of_assignment Shapely.contains frozen_a
           [single_detection [500; 500; 600; 600] 28 7;
            single_detection [1000; 1000; 1100; 1100] 28 7] 1 1).
  vm_compute. reflexivity.
Defined.

(** C4 (idempotent identity resolution).  Resolving a tracker id returns an
    identity and advances the counter only when the id was unknown; after
    that, whatever detections or frames are processed in between, resolving
    the same id again returns the same identity and changes nothing. *)
Theorem idempotent_identity_resolution
    (contains : Shapely.polygon -> Shapely.point -> bool)
    (s : RegionPersistentCounter) (y : Z) :
  exists s1 t1 u,
    resolve_custom_id y s = mkResult s1 t1 (Normal u)
    /\ next_custom_id s1 =
       next_custom_id s + (if yolo_id_to_custom_id s !! y is Some _ then 0 else 1)
    /\ resolve_custom_id y s1 = mkResult s1 [] (Normal u)
    /\ (forall ds,
         let s2 := final (for_each (process_detection contains) ds s1) in
         resolve_custom_id y s2 = mkResult s2 [] (Normal u))
    /\ (forall frame_count frames,
         let s2 := final (video_loop contains frame_count frames s1) in
         resolve_custom_id y s2 = mkResult s2 [] (Normal u)).
Proof.
  destruct (resolve_run y s) as (s1 & t1 & u & Hres).
  exists s1, t1, u. split; [exact Hres |].
  destruct (extends_resolve _ _ _ _ _ Hres) as (_ & _ & Hy1).
  split.
  { apply resolve_inv in Hres as [(Hy & -> & ->) | (Hy & -> & -> & ->)];
      rewrite Hy; cbn; lia. }
  split; [by apply resolve_seen |].
  split.
  - intros ds s2. apply resolve_seen.
    destruct (respects_for_each extends extends_step_relation
                (process_detection contains) ds
                (extends_process_detection contains) s1)
      as (_ & _ & Hreg & _).
    eapply lookup_weaken; eassumption.
  - intros frame_count frames s2. apply resolve_seen.
    destruct (respects_video_loop contains extends extends_step_relation
                (extends_process_detection contains) frames frame_count s1)
      as (_ & _ & Hreg & _).
    eapply lookup_weaken; eassumption.
Qed.

(* ===================================================================== *)
(** ** Issuance of identities *)
(* ===================================================================== *)

Lemma issues_app t1 t2 : issues (t1 ++ t2) = issues t1 ++ issues t2.
Proof.
  induction t1 as [| ev t1 IH]; [reflexivity |].
  destruct ev; cbn; rewrite ?IH; reflexivity.
Qed.

(** A trace of membership tests and prints issues nothing. *)
Lemma issues_none t :
  (forall ev, ev ∈ t -> forall y u, ev ≠ EvIssue y u) -> issues t = [].
Proof.
  induction t as [| ev t IH]; intros H; [reflexivity |].
  destruct ev as [m | u cp k | y u]; cbn.
  - apply IH. intros ev Hev. apply H. by right.
  - apply IH. intros ev Hev. apply H. by right.
  - exfalso. eapply (H (EvIssue y u)); [left | reflexivity].
Qed.

(** A run that issues nothing and leaves the registry and the counter
    alone. *)
Lemma issuance_silent s t s' :
  issues t = [] ->
  yolo_id_to_custom_id s' = yolo_id_to_custom_id s ->
  next_custom_id s' = next_custom_id s ->
  issuance s t s'.
Proof.
  intros Ht Hreg Hnext. unfold issuance. rewrite Ht, Hreg, Hnext. cbn.
  split; [reflexivity |]. split; [lia |]. split; [| split].
  - intros y u. split; [auto |]. intros [H | H]; [exact H | inversion H].
  - intros y u H. inversion H.
  - constructor.
Qed.

Lemma issuance_step_relation : step_relation issuance.
Proof.
  split.
  - intros s. by apply issuance_silent.
  - intros s t1 s1 t2 s2 (Hseq1 & Hnext1 & Hreg1 & Hnew1 & Hnd1)
                         (Hseq2 & Hnext2 & Hreg2 & Hnew2 & Hnd2).
    unfold issuance. rewrite issues_app, length_app, !fmap_app, Nat2Z.inj_add.
    split; [| split; [| split; [| split]]].
    + rewrite seqZ_app by lia. rewrite Hseq1, Hseq2, Hnext1. reflexivity.
    + lia.
    + intros y u. rewrite Hreg2, Hreg1, elem_of_app. tauto.
    + intros y u Hin. apply elem_of_app in Hin as [Hin | Hin]; [eauto |].
      specialize (Hnew2 _ _ Hin).
      destruct (yolo_id_to_custom_id s !! y) as [u' |] eqn:E; [| reflexivity].
      assert (yolo_id_to_custom_id s1 !! y = Some u') by (apply Hreg1; auto).
      congruence.
    + apply NoDup_app. split; [exact Hnd1 |]. split; [| exact Hnd2].
      intros y Hy1 Hy2.
      apply list_elem_of_fmap in Hy1 as ([y1 u1] & -> & Hin1).
      apply list_elem_of_fmap in Hy2 as ([y2 u2] & Heq & Hin2). cbn in Heq. subst y2.
      specialize (Hnew2 _ _ Hin2).
      assert (yolo_id_to_custom_id s1 !! y1 = Some u1) by (apply Hreg1; auto).
      congruence.
  - intros s m. by apply issuance_silent.
  - intros s classes. by apply issuance_silent.
Qed.

Lemma issuance_resolve y s s1 t1 u :
  resolve_custom_id y s = mkResult s1 t1 (Normal u) -> issuance s t1 s1.
Proof.
  intros H. apply resolve_inv in H as [(Hy & -> & ->) | (Hy & -> & -> & ->)].
  - apply (sr_refl _ issuance_step_relation).
  - unfold issuance. cbn. split; [| split; [| split; [| split]]].
    + reflexivity.
    + lia.
    + intros y' u'. rewrite list_elem_of_singleton.
      destruct (decide (y = y')) as [<- | Hne].
      * rewrite lookup_insert_eq, Hy. split; [intros [= <-]; auto |].
        intros [H | [= <-]]; [discriminate | reflexivity].
      * rewrite lookup_insert_ne by exact Hne. split; [auto |].
        intros [H | [= -> _]]; [exact H | contradiction].
    + intros y' u' Hin. apply list_elem_of_singleton in Hin as [= -> _]. exact Hy.
    + apply NoDup_singleton.
Qed.

Lemma issuance_process_detection contains d :
  respects issuance (process_detection contains d).
Proof.
  intros s.
  destruct (process_detection_run contains d s)
    as [box cls_val y Hcls | box y Hbox
       | x1 y1 x2 y2 y s1 t1 u k Hres Hass
       | x1 y1 x2 y2 y s1 t1 u t2 in_r1 in_r2 Hres Hass Hscan]; cbn [final trace].
  - apply (sr_refl _ issuance_step_relation).
  - apply (sr_refl _ issuance_step_relation).
  - apply (issuance_resolve _ _ _ _ _ Hres).
  - eapply (sr_trans _ issuance_step_relation);
      [apply (issuance_resolve _ _ _ _ _ Hres) |].
    destruct (commit_other u in_r1 in_r2 s1) as (_ & _ & Hreg & Hnext & _).
    assert (Hnone : issues (t2 ++ commit_trace u in_r1 in_r2) = []).
    { apply issues_none. intros ev Hin y' u' ->.
      apply elem_of_app in Hin as [Hin | Hin].
      - destruct (region_scan_run contains u (check_points x1 y1 x2 y2) s1)
          as (t & b1 & b2 & Heq & Hev).
        rewrite Heq in Hscan. injection Hscan as <- _ _.
        destruct (Hev _ Hin) as (cp' & k' & Habs & _). discriminate.
      - apply commit_trace_prints in Hin as [m Hm]. discriminate. }
    by apply issuance_silent.
Qed.

(* ===================================================================== *)
(** ** The counts *)
(* ===================================================================== *)

Lemma filter_one_two_length (l : list Z) :
  (forall v, v ∈ l -> v = 1 \/ v = 2) ->
  (length (filter (λ r, r = 1%Z) l) + length (filter (λ r, r = 2%Z) l))%nat
  = length l.
Proof.
  induction l as [| v l IH]; intros H; [reflexivity |].
  assert (Hl : forall w, w ∈ l -> w = 1 \/ w = 2) by (intros w Hw; apply H; by right).
  specialize (IH Hl).
  destruct (H v) as [-> | ->]; [left | |].
  - rewrite filter_cons_True by reflexivity.
    rewrite (filter_cons_False (λ r, r = 2)) by discriminate. cbn. lia.
  - rewrite filter_cons_False by discriminate.
    rewrite (filter_cons_True (λ r, r = 2)) by reflexivity. cbn. lia.
Qed.

Lemma ledger_valid_counts s : ledger_valid s -> counts_consistent s.
Proof.
  intros Hvalid. unfold counts_consistent, draw_statistics, count_assigned.
  split; [reflexivity |].
  rewrite <- Nat2Z.inj_add, filter_one_two_length.
  - rewrite length_fmap, length_map_to_list. reflexivity.
  - intros v Hv. apply list_elem_of_fmap in Hv as ([u k] & -> & Hin).
    apply elem_of_map_to_list in Hin. exact (Hvalid _ _ Hin).
Qed.

Lemma ledger_valid_process_detection contains d s :
  ledger_valid s -> ledger_valid (final (process_detection contains d s)).
Proof.
  intros Hvalid.
  destruct (process_detection_run contains d s)
    as [box cls_val y Hcls | box y Hbox
       | x1 y1 x2 y2 y s1 t1 u k Hres Hass
       | x1 y1 x2 y2 y s1 t1 u t2 in_r1 in_r2 Hres Hass Hscan]; cbn [final];
    try exact Hvalid.
  - destruct (extends_resolve _ _ _ _ _ Hres) as (_ & Hled & _).
    unfold ledger_valid. rewrite Hled. exact Hvalid.
  - destruct (extends_resolve _ _ _ _ _ Hres) as (_ & Hled & _).
    unfold ledger_valid. rewrite commit_ledger, Hled. intros u' k'.
    destruct in_r1; [| destruct in_r2]; [| | apply Hvalid];
      (destruct (decide (u = u')) as [<- | Hne];
       [rewrite lookup_insert_eq; intros [= <-]; auto
       | rewrite lookup_insert_ne by exact Hne; apply Hvalid]).
Qed.

Lemma reachable_ledger_valid contains s0 s :
  ledger_valid s0 -> reachable contains s0 s -> ledger_valid s.
Proof.
  intros H0 Hreach. induction Hreach as [| s d _ IH | s classes _ IH].
  - exact H0.
  - by apply ledger_valid_process_detection.
  - exact IH.
Qed.

Lemma reachable_step_relation contains s0 :
  step_relation (λ s _ s', reachable contains s0 s -> reachable contains s0 s').
Proof.
  split; auto.
  intros s classes H. by apply reach_counts.
Qed.

Lemma init_start region1_points region2_points s0 :
  __init__ region1_points region2_points = Some s0 ->
  exists region_polygon1 region_polygon2,
    Shapely.Polygon region1_points = Some region_polygon1
    /\ Shapely.Polygon region2_points = Some region_polygon2
    /\ s0 = mkCounter region_polygon1 region_polygon2 ∅ 1 ∅ [].
Proof.
  unfold __init__.
  destruct (Shapely.Polygon region1_points) as [p1 |]; [| discriminate].
  destruct (Shapely.Polygon region2_points) as [p2 |]; [| discriminate].
  cbn. intros [= <-]. eauto.
Qed.

(** C6 (count consistency).  In every state that a run from the initial
    state goes through, the Region 1 count plus the Region 2 count is the
    total that [draw_statistics] reports, and that total is the number of
    identities in the ledger.  The states at the end of each frame and at
    the end of [process_video], where the counts are drawn and printed, are
    among them. *)
Theorem count_consistency
    (contains : Shapely.polygon -> Shapely.point -> bool)
    (region1_points region2_points : list (Q * Q))
    (s0 : RegionPersistentCounter) :
  __init__ region1_points region2_points = Some s0 ->
  (forall s, reachable contains s0 s -> counts_consistent s)
  /\ (forall frame_count frames,
       reachable contains s0 (final (video_loop contains frame_count frames s0)))
  /\ (forall frames,
       reachable contains s0 (final (process_video contains frames s0))).
Proof.
  intros Hinit. split; [| split].
  - intros s Hreach. apply ledger_valid_counts.
    eapply reachable_ledger_valid; [| exact Hreach].
    apply init_start in Hinit as (p1 & p2 & _ & _ & ->).
    intros u k H. cbn in H. rewrite lookup_empty in H. discriminate.
  - intros frame_count frames.
    apply (respects_video_loop contains _ (reachable_step_relation contains s0)).
    + intros d s Hs. by apply reach_detection.
    + apply reach_start.
  - intros frames.
    apply (respects_process_video contains _ (reachable_step_relation contains s0)).
    + intros d s Hs. by apply reach_detection.
    + apply reach_start.
Qed.

Lemma count_consistency_witness :
  __init__ (rectangle 150 250 150 250) (rectangle 1000 1100 1000 1100) = Some start_a
  /\ (forall s, reachable Shapely.contains start_a s -> counts_consistent s)
  /\ (forall frame_count frames,
       reachable Shapely.contains start_a
         (final (video_loop Shapely.contains frame_count frames start_a)))
  /\ (forall frames,
       reachable Shapely.contains start_a
         (final (process_video Shapely.contains frames start_a))).
Proof.
  split; [vm_compute; reflexivity |].
  apply (count_consistency Shapely.contains
           (rectangle 150 250 150 250) (rectangle 1000 1100 1000 1100) start_a).
  vm_compute. reflexivity.
Defined.

(* ===================================================================== *)
(** ** Detections of other classes *)
(* ===================================================================== *)

Lemma process_detection_other_class contains box cls_val yolo_id s :
  cls_val ≠ 28 ->
  process_detection contains (box, cls_val, yolo_id) s = mkResult s [] (Normal tt).
Proof.
  intros Hcls. unfold process_detection.
  apply Z.eqb_neq in Hcls. rewrite Hcls. reflexivity.
Qed.

Lemma for_each_skip {X} (body : X -> M unit) x rest s :
  body x s = mkResult s [] (Normal tt) ->
  for_each body (x :: rest) s = for_each body rest s.
Proof.
  intros Hx. rewrite for_each_cons.
  rewrite (bind_Normal _ _ _ _ _ _ _ _ _ Hx (result_eta _)). cbn [app].
  symmetry. apply result_eta.
Qed.

(** C8 (class filtering).  A detection whose class is not 28 is processed
    without any effect: the whole counter (registry, issuance counter and
    ledger included) is unchanged, nothing is issued, tested or printed and
    nothing is raised, whatever its box and its tracker id.  Taking such a
    detection out of the detections of a frame changes nothing in the run
    of the loop. *)
Theorem class_filtering_frame_effect
    (contains : Shapely.polygon -> Shapely.point -> bool)
    (box : list Z) (cls_val yolo_id : Z) (s : RegionPersistentCounter) :
  cls_val ≠ 28 ->
  process_detection contains (box, cls_val, yolo_id) s = mkResult s [] (Normal tt)
  /\ forall before after s',
       for_each (process_detection contains)
         (before ++ (box, cls_val, yolo_id) :: after) s'
       = for_each (process_detection contains) (before ++ after) s'.
Proof.
  intros Hcls. split; [by apply process_detection_other_class |].
  induction before as [| d before IH]; intros after s'.
  - cbn [app]. apply for_each_skip. by apply process_detection_other_class.
  - cbn [app]. rewrite !for_each_cons, !bind_eq.
    destruct (value (process_detection contains d s')); [| reflexivity].
    rewrite IH. reflexivity.
Qed.

(** A person (class 0) with a malformed box and an unknown tracker id. *)
Lemma class_filtering_frame_effect_witness :
  0 ≠ 28
  /\ process_detection Shapely.contains ([1; 2; 3], 0, 9) frozen_a
     = mkResult frozen_a [] (Normal tt)
  /\ forall before after s',
       for_each (process_detection Shapely.contains)
         (before ++ ([1; 2; 3], 0, 9) :: after) s'
       = for_each (process_detection Shapely.contains) (before ++ after) s'.
Proof.
  split; [discriminate |].
  apply (class_filtering_frame_effect Shapely.contains [1; 2; 3] 0 9 frozen_a).
  discriminate.
Defined.

(* ===================================================================== *)
(** ** Exceptions stay inside the frame *)
(* ===================================================================== *)

Lemma when_print_run b m s :
  when b (print m) s = mkResult s (if b then [EvPrint m] else []) (Normal tt).
Proof. destruct b; reflexivity. Qed.

Lemma class_statistics_normal b frame_count s :
  value (class_statistics b frame_count s) = Normal tt.
Proof.
  unfold class_statistics. destruct (boxes_cls b) as [classes |]; [| reflexivity].
  rewrite bind_eq. cbn. rewrite when_print_run. reflexivity.
Qed.

(** The guarded block: an exception raised by the body is printed, and the
    block ends normally in the state in which the exception was raised. *)
Lemma try_except_print_run body s :
  try_except body (λ e, print (MsgErrorTracking e)) s =
  match value (body s) with
  | Normal _ => body s
  | Raise e =>
      mkResult (final (body s)) (trace (body s) ++ [EvPrint (MsgErrorTracking e)])
        (Normal tt)
  end.
Proof. unfold try_except. destruct (value (body s)); reflexivity. Qed.

Lemma try_except_print_normal body s :
  value (try_except body (λ e, print (MsgErrorTracking e)) s) = Normal tt.
Proof.
  rewrite try_except_print_run.
  destruct (value (body s)) as [[] |] eqn:E; [exact E | reflexivity].
Qed.

(** [process_frame] never raises. *)
Lemma process_frame_normal contains results frame_count s :
  value (process_frame contains results frame_count s) = Normal tt.
Proof.
  unfold process_frame, no_detections.
  destruct results as [| r0 rest]; [by rewrite when_print_run |].
  destruct (boxes r0) as [b |]; [| by rewrite when_print_run].
  destruct (0 <? length (boxes_xyxy b))%nat; [| by rewrite when_print_run].
  rewrite bind_eq, class_statistics_normal. cbn [value].
  destruct (boxes_id b) as [track_ids |].
  - apply try_except_print_normal.
  - by rewrite when_print_run.
Qed.

(** One turn of the video loop. *)
Lemma video_loop_cons contains frame_count f rest s :
  let r := process_frame contains (track f) (frame_count + 1) s in
  video_loop contains frame_count (f :: rest) s =
  let r' := if quit_key f then mkResult (final r) [] (Normal tt)
            else video_loop contains (frame_count + 1) rest (final r) in
  mkResult (final r')
    ((if (frame_count + 1) `mod` 10 =? 0
      then [EvPrint (MsgProcessingFrame (frame_count + 1))] else [])
     ++ trace r ++ trace r')
    (value r').
Proof.
  intros r. cbn [video_loop]. rewrite bind_eq, when_print_run. cbn [value final trace].
  rewrite bind_eq. change (process_frame contains (track f) (frame_count + 1) s) with r.
  assert (Hn : value r = Normal tt) by apply process_frame_normal.
  rewrite Hn. destruct (quit_key f); reflexivity.
Qed.

(** The video loop never raises. *)
Lemma video_loop_normal contains frames : forall frame_count s,
  value (video_loop contains frame_count frames s) = Normal tt.
Proof.
  induction frames as [| f rest IH]; intros frame_count s; [reflexivity |].
  rewrite video_loop_cons. cbn zeta. destruct (quit_key f); [reflexivity | apply IH].
Qed.

(** C9 (per-frame error isolation).  When the guarded block of a frame
    raises an exception [e], leaving the counter in state [s1], then
    [process_frame] still ends normally, in state [s1] itself, after
    printing the error; every registry and ledger entry held before the
    frame is still held, and the issuance counter has not gone back; the
    video loop does not raise and, unless the user quits, goes on with the
    next frame from [s1]. *)
Theorem per_frame_error_isolation
    (contains : Shapely.polygon -> Shapely.point -> bool)
    (f : FrameInput) (rest : list FrameInput) (frame_count : Z)
    (s : RegionPersistentCounter) (b : Boxes) (other : list Results)
    (track_ids : list Z) (s1 : RegionPersistentCounter) (t1 : list event)
    (e : exn) :
  track f = mkResults (Some b) :: other ->
  boxes_xyxy b ≠ [] ->
  boxes_id b = Some track_ids ->
  tracking_block contains b track_ids
    (final (class_statistics b (frame_count + 1) s)) = mkResult s1 t1 (Raise e) ->
  let r := process_frame contains (track f) (frame_count + 1) s in
  value r = Normal tt
  /\ final r = s1
  /\ trace r = trace (class_statistics b (frame_count + 1) s)
               ++ t1 ++ [EvPrint (MsgErrorTracking e)]
  /\ yolo_id_to_custom_id s ⊆ yolo_id_to_custom_id s1
  /\ object_region_assignments s ⊆ object_region_assignments s1
  /\ next_custom_id s <= next_custom_id s1
  /\ value (video_loop contains frame_count (f :: rest) s) = Normal tt
  /\ (quit_key f = false ->
      final (video_loop contains frame_count (f :: rest) s)
      = final (video_loop contains (frame_count + 1) rest s1)).
Proof.
  intros Htrack Hlen Hid Hblock r.
  assert (Hr : r = mkResult s1
                     (trace (class_statistics b (frame_count + 1) s)
                      ++ t1 ++ [EvPrint (MsgErrorTracking e)]) (Normal tt)).
  { unfold r, process_frame. rewrite Htrack. cbn [boxes].
    destruct (boxes_xyxy b) as [| box0 boxes']; [congruence |]. cbn [length Nat.ltb Nat.leb].
    rewrite bind_eq, class_statistics_normal, Hid.
    rewrite try_except_print_run, Hblock. reflexivity. }
  pose proof (respects_process_frame contains extends extends_step_relation
                (extends_process_detection contains) (track f) (frame_count + 1) s)
    as (_ & _ & Hreg & Hled & _).
  pose proof (respects_process_frame contains issuance issuance_step_relation
                (issuance_process_detection contains) (track f) (frame_count + 1) s)
    as (_ & Hnext & _).
  fold r in Hreg, Hled, Hnext. rewrite Hr in Hreg, Hled, Hnext. cbn [final trace] in *.
  split; [by rewrite Hr |]. split; [by rewrite Hr |]. split; [by rewrite Hr |].
  split; [exact Hreg |]. split; [exact Hled |]. split; [lia |].
  split; [apply video_loop_normal |].
  intros Hquit. rewrite video_loop_cons. cbn zeta. rewrite Hquit. fold r.
  rewrite Hr. reflexivity.
Qed.

(** A frame of three suitcases whose second box cannot be unpacked: the
    first suitcase is registered and assigned before the exception, the
    third is never looked at, and the run goes on. *)
Lemma per_frame_error_isolation_witness :
  (tracking_block Shapely.contains broken_boxes [7; 8; 9]
     (final (class_statistics broken_boxes (0 + 1) start_a))
   = mkResult after_broken_frame broken_frame_trace (Raise ValueError))
  /\ let r := process_frame Shapely.contains (track broken_frame) (0 + 1) start_a in
     value r = Normal tt
     /\ final r = after_broken_frame
     /\ trace r = trace (class_statistics broken_boxes (0 + 1) start_a)
                  ++ broken_frame_trace ++ [EvPrint (MsgErrorTracking ValueError)]
     /\ yolo_id_to_custom_id start_a ⊆ yolo_id_to_custom_id after_broken_frame
     /\ object_region_assignments start_a
        ⊆ object_region_assignments after_broken_frame
     /\ next_custom_id start_a <= next_custom_id after_broken_frame
     /\ value (video_loop Shapely.contains 0
                 (broken_frame :: [single_detection [0; 0; 10; 10] 28 9]) start_a)
        = Normal tt
     /\ (quit_key broken_frame = false ->
         final (video_loop Shapely.contains 0
                  (broken_frame :: [single_detection [0; 0; 10; 10] 28 9]) start_a)
         = final (video_loop Shapely.contains (0 + 1)
                    [single_detection [0; 0; 10; 10] 28 9] after_broken_frame)).
Proof.
  assert (Hraise :
    tracking_block Shapely.contains broken_boxes [7; 8; 9]
      (final (class_statistics broken_boxes (0 + 1) start_a))
    = mkResult after_broken_frame broken_frame_trace (Raise ValueError)).
  { vm_compute. reflexivity. }
  split; [exact Hraise |].
  apply (per_frame_error_isolation Shapely.contains broken_frame
           [single_detection [0; 0; 10; 10] 28 9] 0 start_a broken_boxes []
           [7; 8; 9] after_broken_frame broken_frame_trace ValueError).
  - reflexivity.
  - discriminate.
  - reflexivity.
  - exact Hraise.
Defined.

(* ===================================================================== *)
(** ** The scan of the sample points *)
(* ===================================================================== *)

Section ScanFacts.

Variable contains : Shapely.polygon -> Shapely.point -> bool.

(** The scan goes past the points that are in neither region, testing each
    against Region 1 and then Region 2, and stops at the first point that is
    in one of them. *)
Lemma region_scan_first_hit u pre cp post s :
  (forall p, p ∈ pre ->
     is_in_region contains p (region_polygon1 s) = false
     /\ is_in_region contains p (region_polygon2 s) = false) ->
  is_in_region contains cp (region_polygon1 s) = true
  \/ is_in_region contains cp (region_polygon2 s) = true ->
  let hit1 := is_in_region contains cp (region_polygon1 s) in
  region_scan contains u (pre ++ cp :: post) s =
  mkResult s
    (both_tests u pre
     ++ EvIsInRegion u cp 1 :: (if hit1 then [] else [EvIsInRegion u cp 2]))
    (Normal (hit1, negb hit1)).
Proof.
  intros Hpre Hhit hit1. induction pre as [| p pre IH]; cbn [app].
  - rewrite region_scan_cons. fold hit1. destruct hit1 eqn:E1; [reflexivity |].
    destruct Hhit as [Hhit | Hhit]; [unfold hit1 in E1; congruence |].
    rewrite Hhit. reflexivity.
  - rewrite region_scan_cons.
    destruct (Hpre p) as [-> ->]; [left |].
    rewrite IH by (intros q Hq; apply Hpre; by right). reflexivity.
Qed.

(** When no point is in a region, all are tested and the scan finds nothing. *)
Lemma region_scan_all_miss u cps s :
  (forall p, p ∈ cps ->
     is_in_region contains p (region_polygon1 s) = false
     /\ is_in_region contains p (region_polygon2 s) = false) ->
  region_scan contains u cps s = mkResult s (both_tests u cps) (Normal (false, false)).
Proof.
  intros Hmiss. induction cps as [| p cps IH]; [reflexivity |].
  rewrite region_scan_cons.
  destruct (Hmiss p) as [-> ->]; [left |].
  rewrite IH by (intros q Hq; apply Hmiss; by right). reflexivity.
Qed.


Lemma tests_app t1 t2 : tests (t1 ++ t2) = tests t1 ++ tests t2.
Proof.
  induction t1 as [| ev t1 IH]; [reflexivity |].
  destruct ev; cbn; rewrite ?IH; reflexivity.
Qed.

(** The tests of a scan are an initial part of the schedule of its points. *)
Lemma region_scan_tests_prefix u cps s :
  tests (trace (region_scan contains u cps s)) `prefix_of` schedule u cps.
Proof.
  induction cps as [| cp cps IH]; [apply prefix_nil |].
  rewrite region_scan_cons. unfold schedule. cbn [mbind list_bind app].
  destruct (is_in_region contains cp (region_polygon1 s)).
  { cbn. apply prefix_cons, prefix_nil. }
  destruct (is_in_region contains cp (region_polygon2 s)).
  { cbn. apply prefix_cons, prefix_cons, prefix_nil. }
  cbn. apply prefix_cons, prefix_cons, IH.
Qed.

(** When a point of the list is in Region 1, the scan finds a region, and
    it is Region 1 exactly when the first point in a region, among those
    before it, is in Region 1. *)
Lemma region_scan_tie_break u pre cp post s :
  is_in_region contains cp (region_polygon1 s) = true ->
  value (region_scan contains u (pre ++ cp :: post) s)
  = Normal (region1_first contains s pre, negb (region1_first contains s pre)).
Proof.
  intros Hin1. induction pre as [| p pre IH]; cbn [app region1_first].
  - rewrite region_scan_cons, Hin1. reflexivity.
  - rewrite region_scan_cons.
    destruct (is_in_region contains p (region_polygon1 s)); [reflexivity |].
    destruct (is_in_region contains p (region_polygon2 s)); [reflexivity |].
    cbn [value]. exact IH.
Qed.

(** Region 1 comes first, in particular, when every point that is in
    Region 2 is in Region 1 as well. *)
Lemma region1_first_covered pre s :
  Forall (λ p, is_in_region contains p (region_polygon2 s) = true ->
               is_in_region contains p (region_polygon1 s) = true) pre ->
  region1_first contains s pre = true.
Proof.
  induction 1 as [| p pre Hp _ IH]; [reflexivity |]. cbn [region1_first].
  destruct (is_in_region contains p (region_polygon1 s)); [reflexivity |].
  destruct (is_in_region contains p (region_polygon2 s)); [| exact IH].
  discriminate (Hp eq_refl).
Qed.

(** It does not exactly when the first point in a region is in Region 2
    only. *)
Lemma region1_first_false pre s :
  region1_first contains s pre = false <->
  exists before p after,
    pre = before ++ p :: after
    /\ Forall (λ q, is_in_region contains q (region_polygon1 s) = false
                    /\ is_in_region contains q (region_polygon2 s) = false) before
    /\ is_in_region contains p (region_polygon1 s) = false
    /\ is_in_region contains p (region_polygon2 s) = true.
Proof.
  induction pre as [| p pre IH]; cbn [region1_first].
  - split; [discriminate |]. intros (before & q & after & Habs & _).
    destruct before; discriminate.
  - destruct (is_in_region contains p (region_polygon1 s)) eqn:E1.
    { split; [discriminate |]. intros (before & q & after & Heq & Hmiss & Hq1 & _).
      destruct before as [| b before]; cbn [app] in Heq; injection Heq as <- _.
      - congruence.
      - apply Forall_cons in Hmiss as [[Hb _] _]. congruence. }
    destruct (is_in_region contains p (region_polygon2 s)) eqn:E2.
    { split; [intros _ | reflexivity]. exists [], p, pre. auto. }
    rewrite IH. split.
    + intros (before & q & after & -> & Hmiss & Hq).
      exists (p :: before), q, after. split; [reflexivity |].
      split; [constructor; auto | exact Hq].
    + intros (before & q & after & Heq & Hmiss & Hq1 & Hq2).
      destruct before as [| b before]; cbn [app] in Heq; injection Heq as <- ->.
      * congruence.
      * apply Forall_cons in Hmiss as [_ Hmiss]. eauto 10.
Qed.

(** The loop body on a well-formed suitcase detection whose identity has a
    region already. *)
Lemma process_detection_frozen x1 y1 x2 y2 y s s1 t1 u k :
  resolve_custom_id y s = mkResult s1 t1 (Normal u) ->
  object_region_assignments s1 !! u = Some k ->
  process_detection contains ([x1; y1; x2; y2], 28, y) s
  = mkResult s1 t1 (draw_outcome (drawn_frozen x1 y1 x2 y2)).
Proof.
  intros Hres Hass. unfold process_detection. cbn [Z.eqb Pos.eqb].
  rewrite bind_eq. cbn [unpack4 mret M_ret ret value final trace app].
  rewrite bind_eq, Hres. cbn [value final trace].
  rewrite bind_eq. cbn [get value final trace app]. rewrite Hass.
  cbn [draw final trace value]. rewrite app_nil_r. reflexivity.
Qed.

(** The loop body on a well-formed suitcase detection whose identity has no
    region yet. *)
Lemma process_detection_scanned x1 y1 x2 y2 y s s1 t1 u t2 in_r1 in_r2 :
  resolve_custom_id y s = mkResult s1 t1 (Normal u) ->
  object_region_assignments s1 !! u = None ->
  region_scan contains u (check_points x1 y1 x2 y2) s1
    = mkResult s1 t2 (Normal (in_r1, in_r2)) ->
  process_detection contains ([x1; y1; x2; y2], 28, y) s
  = mkResult (commit u in_r1 in_r2 s1) (t1 ++ t2 ++ commit_trace u in_r1 in_r2)
      (draw_outcome (drawn_scanned x1 y1 x2 y2)).
Proof.
  intros Hres Hass Hscan. unfold process_detection. cbn [Z.eqb Pos.eqb].
  rewrite bind_eq. cbn [unpack4 mret M_ret ret value final trace app].
  rewrite bind_eq, Hres. cbn [value final trace].
  rewrite bind_eq. cbn [get value final trace app]. rewrite Hass.
  rewrite bind_eq, Hscan. cbn [value final trace].
  unfold commit, commit_trace. rewrite bind_eq.
  destruct in_r1; [cbn; rewrite app_nil_r; reflexivity |].
  destruct in_r2; cbn; rewrite !app_nil_r; reflexivity.
Qed.

(** The identity at the first sample point that is in a region gets the
    region of that point, Region 1 if the point is in both. *)
Lemma process_detection_first_hit x1 y1 x2 y2 y s s1 t1 u pre cp post :
  resolve_custom_id y s = mkResult s1 t1 (Normal u) ->
  object_region_assignments s1 !! u = None ->
  check_points x1 y1 x2 y2 = pre ++ cp :: post ->
  (forall p, p ∈ pre ->
     is_in_region contains p (region_polygon1 s) = false
     /\ is_in_region contains p (region_polygon2 s) = false) ->
  is_in_region contains cp (region_polygon1 s) = true
  \/ is_in_region contains cp (region_polygon2 s) = true ->
  let hit1 := is_in_region contains cp (region_polygon1 s) in
  let verdict := if hit1 then 1 else 2 in
  process_detection contains ([x1; y1; x2; y2], 28, y) s =
  mkResult (set_assignment u verdict s1)
    (t1 ++ (both_tests u pre
            ++ EvIsInRegion u cp 1 :: (if hit1 then [] else [EvIsInRegion u cp 2]))
        ++ [EvPrint (MsgAssigned u verdict)])
    (draw_outcome (drawn_scanned x1 y1 x2 y2)).
Proof.
  intros Hres Hass Hcps Hpre Hhit hit1 verdict.
  destruct (extends_resolve _ _ _ _ _ Hres) as ((Hp1 & Hp2 & _) & _ & _).
  rewrite <- Hp1, <- Hp2 in Hpre, Hhit.
  pose proof (region_scan_first_hit u pre cp post s1 Hpre Hhit) as Hscan.
  cbn zeta in Hscan. rewrite <- Hcps, Hp1 in Hscan. fold hit1 in Hscan.
  rewrite (process_detection_scanned _ _ _ _ _ _ _ _ _ _ _ _ Hres Hass Hscan).
  unfold commit, commit_trace, verdict. destruct hit1; reflexivity.
Qed.

End ScanFacts.

Lemma tests_both_tests u cps : tests (both_tests u cps) = schedule u cps.
Proof.
  unfold both_tests, schedule. induction cps as [| cp cps IH]; [reflexivity |].
  cbn [mbind list_bind app tests]. cbn. f_equal. f_equal. exact IH.
Qed.

Lemma tests_resolve y s s1 t1 u :
  resolve_custom_id y s = mkResult s1 t1 (Normal u) -> tests t1 = [].
Proof.
  intros H. apply resolve_inv in H as [(_ & _ & ->) | (_ & _ & _ & ->)]; reflexivity.
Qed.

Lemma tests_commit_trace u in_r1 in_r2 : tests (commit_trace u in_r1 in_r2) = [].
Proof. destruct in_r1, in_r2; reflexivity. Qed.

(* ===================================================================== *)
(** ** Order of the tests and verdict *)
(* ===================================================================== *)

(** C2 (per-point stop on first hit).  For a suitcase detection whose
    identity has no region yet, let [cp] be the first of the six sample
    points, in their order, that lies in Region 1 or in Region 2.  Then the
    points before [cp] are each tested against Region 1 and then Region 2,
    [cp] is tested against Region 1 and, only if that fails, against
    Region 2, and no test is made on the points after [cp]; the identity is
    assigned Region 1 if [cp] is in Region 1 and Region 2 otherwise,
    whatever regions the later points lie in.  This is the state and the
    trace that the loop body leaves for every box; for a pixel-sized box the
    detection is then drawn and the loop body returns. *)
Theorem stop_on_first_hit
    (contains : Shapely.polygon -> Shapely.point -> bool)
    (x1 y1 x2 y2 y : Z) (s s1 : RegionPersistentCounter) (t1 : list event)
    (u : Z) (pre : list (Q * Q)) (cp : Q * Q) (post : list (Q * Q)) :
  resolve_custom_id y s = mkResult s1 t1 (Normal u) ->
  object_region_assignments s1 !! u = None ->
  check_points x1 y1 x2 y2 = pre ++ cp :: post ->
  Forall (λ p, is_in_region contains p (region_polygon1 s) = false
               /\ is_in_region contains p (region_polygon2 s) = false) pre ->
  is_in_region contains cp (region_polygon1 s) = true
  \/ is_in_region contains cp (region_polygon2 s) = true ->
  let hit1 := is_in_region contains cp (region_polygon1 s) in
  let verdict := if hit1 then 1 else 2 in
  let r := process_detection contains ([x1; y1; x2; y2], 28, y) s in
  final r = set_assignment u verdict s1
  /\ trace r = t1 ++ (both_tests u pre
                      ++ EvIsInRegion u cp 1
                         :: (if hit1 then [] else [EvIsInRegion u cp 2]))
                  ++ [EvPrint (MsgAssigned u verdict)]
  /\ (pixel_box x1 y1 x2 y2 -> value r = Normal tt)
  /\ object_region_assignments (final r) !! u = Some verdict
  /\ tests (trace r)
     = schedule u pre ++ (u, cp, 1) :: (if hit1 then [] else [(u, cp, 2)]).
Proof.
  intros Hres Hass Hcps Hpre Hhit hit1 verdict r.
  rewrite Forall_forall in Hpre.
  pose proof (process_detection_first_hit contains _ _ _ _ _ _ _ _ _ _ _ _
                Hres Hass Hcps Hpre Hhit) as Heq.
  cbn zeta in Heq. fold hit1 in Heq. fold verdict in Heq. fold r in Heq.
  rewrite Heq. cbn [final trace value].
  split; [reflexivity |]. split; [reflexivity |].
  split; [apply draw_scanned_pixel_box |]. split.
  - cbn. apply lookup_insert_eq.
  - rewrite !tests_app, (tests_resolve _ _ _ _ _ Hres), tests_both_tests.
    destruct hit1; cbn; rewrite app_nil_r; reflexivity.
Qed.

(** The fourth sample point, the bottom midpoint (150,200), is the first in
    a region and lies in Region 2 only; the sixth point (200,150) lies in
    Region 1 and is never tested. *)
Lemma stop_on_first_hit_witness :
  is_in_region Shapely.contains (inject_Z 200, inject_Z 150)
    (region_polygon1 start_midpoints) = true
  /\ pixel_box 100 100 200 200
  /\ let r := process_detection Shapely.contains ([100; 100; 200; 200], 28, 7)
                start_midpoints in
     final r = set_assignment 1 2 (register_id 7 start_midpoints)
     /\ trace r = [EvIssue 7 1]
                  ++ (both_tests 1 [(inject_Z 200, inject_Z 100);
                                    (inject_Z 100, inject_Z 200);
                                    (inject_Z 200, inject_Z 200)]
                      ++ [EvIsInRegion 1 (inject_Z 150, inject_Z 200) 1;
                          EvIsInRegion 1 (inject_Z 150, inject_Z 200) 2])
                  ++ [EvPrint (MsgAssigned 1 2)]
     /\ (pixel_box 100 100 200 200 -> value r = Normal tt)
     /\ object_region_assignments (final r) !! 1 = Some 2
     /\ tests (trace r)
        = schedule 1 [(inject_Z 200, inject_Z 100);
                      (inject_Z 100, inject_Z 200);
                      (inject_Z 200, inject_Z 200)]
          ++ [(1, (inject_Z 150, inject_Z 200), 1);
              (1, (inject_Z 150, inject_Z 200), 2)].
Proof.
  split; [vm_compute; reflexivity |].
  split; [unfold pixel_box; lia |].
  apply (stop_on_first_hit Shapely.contains 100 100 200 200 7 start_midpoints
           (register_id 7 start_midpoints) [EvIssue 7 1] 1
           [(inject_Z 200, inject_Z 100); (inject_Z 100, inject_Z 200);
            (inject_Z 200, inject_Z 200)]
           (inject_Z 150, inject_Z 200)
           [(inject_Z 100, inject_Z 150); (inject_Z 200, inject_Z 150)]).
  - vm_compute. reflexivity.
  - vm_compute. reflexivity.
  - vm_compute. reflexivity.
  - repeat constructor; vm_compute; reflexivity.
  - right. vm_compute. reflexivity.
Defined.

(** C3 as stated fails: with overlapping regions, the sample point
    (200,200) of the box (100,100)-(200,200) lies inside both Region 1 and
    Region 2, yet the identity is assigned Region 2, because the first
    sample point (200,100) lies in Region 2 only and ends the scan. *)
Lemma priority_tie_break_counterexample :
  let cp := (inject_Z 200, inject_Z 200) in
  let r := process_detection Shapely.contains ([100; 100; 200; 200], 28, 7)
             start_overlap in
  cp ∈ check_points 100 100 200 200
  /\ is_in_region Shapely.contains cp (region_polygon1 start_overlap) = true
  /\ is_in_region Shapely.contains cp (region_polygon2 start_overlap) = true
  /\ yolo_id_to_custom_id (final r) !! 7 = Some 1
  /\ object_region_assignments start_overlap !! 1 = None
  /\ object_region_assignments (final r) !! 1 = Some 2.
Proof.
  cbn zeta. split; [| repeat split; vm_compute; reflexivity].
  unfold check_points. do 2 right. left.
Qed.

(** C3, amended (priority tie-break).  For a suitcase detection whose
    identity has no region yet: when a sample point lies inside both
    Region 1 and Region 2, the identity is assigned Region 1, never
    Region 2, provided that the first sample point before it, in the order
    of the scan, that lies in a region (if there is one) lies in Region 1.
    The proviso cannot be dropped or widened: when that first point lies in
    Region 2 only, the identity is assigned Region 2. *)
Theorem priority_tie_break
    (contains : Shapely.polygon -> Shapely.point -> bool)
    (x1 y1 x2 y2 y : Z) (s s1 : RegionPersistentCounter) (t1 : list event)
    (u : Z) (pre : list (Q * Q)) (cp : Q * Q) (post : list (Q * Q)) :
  resolve_custom_id y s = mkResult s1 t1 (Normal u) ->
  object_region_assignments s1 !! u = None ->
  check_points x1 y1 x2 y2 = pre ++ cp :: post ->
  is_in_region contains cp (region_polygon1 s) = true ->
  is_in_region contains cp (region_polygon2 s) = true ->
  let r := process_detection contains ([x1; y1; x2; y2], 28, y) s in
  (region1_first contains s pre = true ->
     object_region_assignments (final r) !! u = Some 1
     /\ EvPrint (MsgAssigned u 1) ∈ trace r
     /\ EvPrint (MsgAssigned u 2) ∉ trace r)
  /\ (region1_first contains s pre = false ->
      object_region_assignments (final r) !! u = Some 2).
Proof.
  intros Hres Hass Hcps Hin1 Hin2 r.
  destruct (extends_resolve _ _ _ _ _ Hres) as ((Hp1 & Hp2 & _) & _ & _).
  destruct (region_scan_run contains u (check_points x1 y1 x2 y2) s1)
    as (t2 & in_r1 & in_r2 & Hscan & Hevs).
  pose proof (region_scan_tie_break contains u pre cp post s1) as Hval.
  rewrite <- Hcps, Hscan, Hp1 in Hval. cbn [value] in Hval.
  specialize (Hval Hin1). injection Hval as -> ->.
  assert (Hfirst : region1_first contains s1 pre = region1_first contains s pre).
  { clear -Hp1 Hp2.
    induction pre as [| p pre IH]; [reflexivity |].
    cbn [region1_first]. rewrite Hp1, Hp2, IH. reflexivity. }
  rewrite Hfirst in Hscan.
  unfold r. rewrite (process_detection_scanned contains _ _ _ _ _ _ _ _ _ _ _ _
                       Hres Hass Hscan).
  cbn [final trace].
  assert (Hquiet : forall k, EvPrint (MsgAssigned u k) ∉ t1 ++ t2).
  { intros k Hin. apply elem_of_app in Hin as [Hin | Hin].
    - apply resolve_inv in Hres as [(_ & _ & ->) | (_ & _ & _ & ->)].
      + inversion Hin.
      + apply list_elem_of_singleton in Hin. discriminate.
    - destruct (Hevs _ Hin) as (p & k' & Hp & _). discriminate. }
  split; intros Hb; rewrite Hb; cbn [negb commit commit_trace].
  - split; [cbn; apply lookup_insert_eq |]. split.
    + rewrite !elem_of_app. right. right. left.
    + rewrite app_assoc, elem_of_app. intros [Hin | Hin].
      * exact (Hquiet 2 Hin).
      * apply list_elem_of_singleton in Hin. discriminate.
  - cbn. apply lookup_insert_eq.
Qed.

(** Region 1 the strip and Region 2 the square inside it, the box
    (100,100)-(200,200): the third sample point (200,200) is inside both
    regions; the first one, (200,100), is in Region 1 only and ends the
    scan. *)
Lemma priority_tie_break_witness :
  (is_in_region Shapely.contains (inject_Z 200, inject_Z 200)
     (region_polygon1 start_strip_first) = true
   /\ is_in_region Shapely.contains (inject_Z 200, inject_Z 200)
        (region_polygon2 start_strip_first) = true
   /\ is_in_region Shapely.contains (inject_Z 200, inject_Z 100)
        (region_polygon1 start_strip_first) = true
   /\ region1_first Shapely.contains start_strip_first
        [(inject_Z 200, inject_Z 100); (inject_Z 100, inject_Z 200)] = true)
  /\ let r := process_detection Shapely.contains ([100; 100; 200; 200], 28, 7)
                start_strip_first in
     object_region_assignments (final r) !! 1 = Some 1
     /\ EvPrint (MsgAssigned 1 1) ∈ trace r
     /\ EvPrint (MsgAssigned 1 2) ∉ trace r.
Proof.
  split; [repeat split; vm_compute; reflexivity |].
  apply (priority_tie_break Shapely.contains 100 100 200 200 7 start_strip_first
           (register_id 7 start_strip_first) [EvIssue 7 1] 1
           [(inject_Z 200, inject_Z 100); (inject_Z 100, inject_Z 200)]
           (inject_Z 200, inject_Z 200)
           [(inject_Z 150, inject_Z 200); (inject_Z 100, inject_Z 150);
            (inject_Z 200, inject_Z 150)]).
  - vm_compute. reflexivity.
  - vm_compute. reflexivity.
  - vm_compute. reflexivity.
  - vm_compute. reflexivity.
  - vm_compute. reflexivity.
  - vm_compute. reflexivity.
Defined.

(* ===================================================================== *)
(** ** A run over single-detection frames *)
(* ===================================================================== *)

Lemma for_each_print_final {X} (msg : X -> message) (l : list X) s :
  final (for_each (λ x, print (msg x)) l s) = s
  /\ value (for_each (λ x, print (msg x)) l s) = Normal tt.
Proof.
  induction l as [| x l IH]; [split; reflexivity |].
  rewrite for_each_cons, bind_eq. cbn [print emit value final trace]. exact IH.
Qed.

(** [process_video] ends in the state in which its loop ends. *)
Lemma process_video_final contains frames s :
  final (process_video contains frames s) = final (video_loop contains 0 frames s).
Proof.
  unfold process_video. rewrite bind_eq, video_loop_normal. cbn [final].
  rewrite bind_eq. cbn [get value final trace].
  destruct (draw_statistics (final (video_loop contains 0 frames s))) as [[total r1] r2].
  rewrite bind_eq. cbn [print emit value final trace].
  apply (for_each_print_final (λ kv, MsgClassStatistics kv.1 kv.2)).
Qed.

Lemma class_statistics_final b frame_count s :
  final (class_statistics b frame_count s) =
  match boxes_cls b with
  | Some classes_this_frame => add_class_counts classes_this_frame s
  | None => s
  end.
Proof.
  unfold class_statistics. destruct (boxes_cls b) as [classes |]; [| reflexivity].
  rewrite bind_eq. cbn. rewrite when_print_run. reflexivity.
Qed.

(** A frame with a single detection ends where the loop body ends on that
    detection, after the class statistics. *)
Lemma single_detection_final contains box cls_val yolo_id frame_count s :
  final (process_frame contains (track (single_detection box cls_val yolo_id))
           frame_count s)
  = final (process_detection contains (box, cls_val, yolo_id)
             (add_class_counts [cls_val] s)).
Proof.
  unfold process_frame, single_detection.
  cbn [track boxes boxes_xyxy boxes_id length Nat.ltb Nat.leb].
  rewrite bind_eq, class_statistics_normal, class_statistics_final.
  cbn [boxes_cls final]. rewrite try_except_print_run.
  unfold tracking_block. cbn [boxes_cls boxes_xyxy].
  rewrite bind_eq. cbn [mret M_ret ret value final trace app].
  change (zip3 [box] [cls_val] [yolo_id]) with [(box, cls_val, yolo_id)].
  rewrite for_each_cons, bind_eq.
  destruct (value (process_detection contains (box, cls_val, yolo_id)
                     (add_class_counts [cls_val] s))); reflexivity.
Qed.

Lemma single_detection_video contains box cls_val yolo_id s :
  final (process_video contains [single_detection box cls_val yolo_id] s)
  = final (process_detection contains (box, cls_val, yolo_id)
             (add_class_counts [cls_val] s)).
Proof.
  rewrite process_video_final, video_loop_cons. cbn zeta.
  cbn [quit_key single_detection video_loop print emit final].
  apply (single_detection_final contains box cls_val yolo_id (0 + 1) s).
Qed.

(* ===================================================================== *)
(** ** The six sample points *)
(* ===================================================================== *)

(** C7 (six candidate points).  The sample points of a box are six, in the
    order top-right, bottom-left, bottom-right, bottom midpoint, left
    midpoint, right midpoint; the mid-points are the quotients by 2 that the
    program computes, which are the exact halves of the sums for
    coordinates below 2^52 in absolute value, pixel coordinates among them.
    For a suitcase detection whose identity has no region yet, the
    membership tests made follow that order (each point against Region 1,
    then Region 2) and stop at some point of it; when no point is in a
    region, all six are tested and the identity stays without a region.
    For the box (100,100)-(200,200) the points are (200,100), (100,200),
    (200,200), (150,200), (100,150), (200,150); with Region 1 the square
    [150,250] x [150,250], the first of them inside Region 1 is (200,200),
    and, Region 2 containing neither point before it, a run over that one
    detection assigns identity 1 to Region 1. *)
Theorem six_candidate_points
    (contains : Shapely.polygon -> Shapely.point -> bool)
    (x1 y1 x2 y2 y : Z) (s s1 : RegionPersistentCounter) (t1 : list event)
    (u : Z) (region2 : Shapely.polygon) (yolo_id : Z) :
  resolve_custom_id y s = mkResult s1 t1 (Normal u) ->
  object_region_assignments s1 !! u = None ->
  is_in_region Shapely.contains (inject_Z 200, inject_Z 100) region2 = false ->
  is_in_region Shapely.contains (inject_Z 100, inject_Z 200) region2 = false ->
  (exists mx my,
     check_points x1 y1 x2 y2 =
       [ (inject_Z x2, inject_Z y1); (inject_Z x1, inject_Z y2);
         (inject_Z x2, inject_Z y2); (mx, inject_Z y2);
         (inject_Z x1, my); (inject_Z x2, my) ]
     /\ mx = true_div (wrap64 (x1 + x2)) 2
     /\ my = true_div (wrap64 (y1 + y2)) 2
     /\ (Z.abs x1 < 4503599627370496 -> Z.abs x2 < 4503599627370496 ->
         (mx == (inject_Z x1 + inject_Z x2) / 2)%Q)
     /\ (Z.abs y1 < 4503599627370496 -> Z.abs y2 < 4503599627370496 ->
         (my == (inject_Z y1 + inject_Z y2) / 2)%Q))
  /\ (let r := process_detection contains ([x1; y1; x2; y2], 28, y) s in
      tests (trace r) `prefix_of` schedule u (check_points x1 y1 x2 y2)
      /\ (Forall (λ p, is_in_region contains p (region_polygon1 s) = false
                       /\ is_in_region contains p (region_polygon2 s) = false)
            (check_points x1 y1 x2 y2) ->
          tests (trace r) = schedule u (check_points x1 y1 x2 y2)
          /\ object_region_assignments (final r) !! u = None))
  /\ check_points 100 100 200 200 =
     [ (inject_Z 200, inject_Z 100); (inject_Z 100, inject_Z 200);
       (inject_Z 200, inject_Z 200); (inject_Z 150, inject_Z 200);
       (inject_Z 100, inject_Z 150); (inject_Z 200, inject_Z 150) ]
  /\ is_in_region Shapely.contains (inject_Z 200, inject_Z 100) region_a = false
  /\ is_in_region Shapely.contains (inject_Z 100, inject_Z 200) region_a = false
  /\ is_in_region Shapely.contains (inject_Z 200, inject_Z 200) region_a = true
  /\ (let r := process_video Shapely.contains
                 [single_detection [100; 100; 200; 200] 28 yolo_id]
                 (counter_with region_a region2 [] 1 []) in
      yolo_id_to_custom_id (final r) !! yolo_id = Some 1
      /\ object_region_assignments (final r) !! 1 = Some 1).
Proof.
  intros Hres Hass Hr2a Hr2b.
  split; [| split; [| split; [| split; [| split; [| split]]]]].
  4, 5, 6: vm_compute; reflexivity.
  3: reflexivity.
  - exists (true_div (wrap64 (x1 + x2)) 2), (true_div (wrap64 (y1 + y2)) 2).
    split; [reflexivity |]. split; [reflexivity |]. split; [reflexivity |].
    split; intros Ha Hb; apply true_div_midpoint; lia.
  - cbn zeta.
    destruct (extends_resolve _ _ _ _ _ Hres) as ((Hp1 & Hp2 & _) & _ & _).
    destruct (region_scan_run contains u (check_points x1 y1 x2 y2) s1)
      as (t2 & in_r1 & in_r2 & Hscan & _).
    rewrite (process_detection_scanned contains _ _ _ _ _ _ _ _ _ _ _ _
               Hres Hass Hscan). cbn [final trace].
    rewrite !tests_app, (tests_resolve _ _ _ _ _ Hres), tests_commit_trace, app_nil_r.
    cbn [app].
    pose proof (region_scan_tests_prefix contains u (check_points x1 y1 x2 y2) s1)
      as Hprefix.
    rewrite Hscan in Hprefix. cbn [trace] in Hprefix.
    split; [exact Hprefix |].
    intros Hmiss. rewrite Forall_forall, <- Hp1, <- Hp2 in Hmiss.
    rewrite (region_scan_all_miss contains u _ s1 Hmiss) in Hscan.
    injection Hscan as <- <- <-.
    split; [exact (tests_both_tests u (check_points x1 y1 x2 y2)) | exact Hass].
  - cbn zeta. rewrite single_detection_video.
    set (s0 := add_class_counts [28] (counter_with region_a region2 [] 1 [])).
    assert (Hres0 : resolve_custom_id yolo_id s0
                    = mkResult (register_id yolo_id s0) [EvIssue yolo_id 1] (Normal 1)).
    { apply (resolve_new yolo_id s0). apply lookup_empty. }
    pose proof (process_detection_first_hit Shapely.contains
                  100 100 200 200 yolo_id s0 (register_id yolo_id s0)
                  [EvIssue yolo_id 1] 1
                  [(inject_Z 200, inject_Z 100); (inject_Z 100, inject_Z 200)]
                  (inject_Z 200, inject_Z 200)
                  [(inject_Z 150, inject_Z 200); (inject_Z 100, inject_Z 150);
                   (inject_Z 200, inject_Z 150)]
                  Hres0) as Hrun.
    cbn zeta in Hrun. rewrite Hrun.
    + cbn [final set_assignment register_id yolo_id_to_custom_id
             object_region_assignments].
      change (is_in_region Shapely.contains (inject_Z 200, inject_Z 200)
                (region_polygon1 s0)) with true. cbn iota.
      split; apply lookup_insert_eq.
    + apply lookup_empty.
    + vm_compute. reflexivity.
    + intros p Hp.
      apply elem_of_cons in Hp as [-> | Hp]; [split; [vm_compute; reflexivity | exact Hr2a] |].
      apply list_elem_of_singleton in Hp as ->.
      split; [vm_compute; reflexivity | exact Hr2b].
    + left. vm_compute. reflexivity.
Qed.

(** The worked example with the far square as Region 2; the general
    statements at the same box, from the start of a run. *)
Lemma six_candidate_points_witness :
  (resolve_custom_id 7 start_a
   = mkResult (register_id 7 start_a) [EvIssue 7 1] (Normal 1)
   /\ object_region_assignments (register_id 7 start_a) !! 1 = None
   /\ is_in_region Shapely.contains (inject_Z 200, inject_Z 100) region_far = false
   /\ is_in_region Shapely.contains (inject_Z 100, inject_Z 200) region_far = false)
  /\ let r := process_video Shapely.contains
                [single_detection [100; 100; 200; 200] 28 7]
                (counter_with region_a region_far [] 1 []) in
     yolo_id_to_custom_id (final r) !! 7 = Some 1
     /\ object_region_assignments (final r) !! 1 = Some 1.
Proof.
  assert (H1 : resolve_custom_id 7 start_a
               = mkResult (register_id 7 start_a) [EvIssue 7 1] (Normal 1))
    by (vm_compute; reflexivity).
  assert (H2 : object_region_assignments (register_id 7 start_a) !! 1 = None)
    by (vm_compute; reflexivity).
  assert (H3 : is_in_region Shapely.contains (inject_Z 200, inject_Z 100) region_far
               = false) by (vm_compute; reflexivity).
  assert (H4 : is_in_region Shapely.contains (inject_Z 100, inject_Z 200) region_far
               = false) by (vm_compute; reflexivity).
  split; [auto |].
  exact (proj2 (proj2 (proj2 (proj2 (proj2 (proj2
           (six_candidate_points Shapely.contains 100 100 200 200 7 start_a
              (register_id 7 start_a) [EvIssue 7 1] 1 region_far 7
              H1 H2 H3 H4))))))).
Defined.

(* ===================================================================== *)
(** ** Membership is strict *)
(* ===================================================================== *)

(** Points on an edge, at a vertex, inside and outside of the square
    [150,250] x [150,250]. *)
Example contains_square :
  Shapely.contains region_a (Shapely.Point (inject_Z 150, inject_Z 200)) = false
  /\ Shapely.contains region_a (Shapely.Point (inject_Z 150, inject_Z 150)) = false
  /\ Shapely.contains region_a (Shapely.Point (inject_Z 250, inject_Z 250)) = false
  /\ Shapely.contains region_a (Shapely.Point (inject_Z 200, inject_Z 200)) = true
  /\ Shapely.contains region_a (Shapely.Point (true_div 301 2, inject_Z 151)) = true
  /\ Shapely.contains region_a (Shapely.Point (inject_Z 100, inject_Z 200)) = false.
Proof. repeat split; vm_compute; reflexivity. Qed.



(* ===================================================================== *)
(** ** The registry as a whole *)
(* ===================================================================== *)

Lemma video_loop_reachable contains s0 frame_count frames s :
  reachable contains s0 s ->
  reachable contains s0 (final (video_loop contains frame_count frames s)).
Proof.
  apply (respects_video_loop contains _ (reachable_step_relation contains s0)).
  intros d s' Hs'. by apply reach_detection.
Qed.

Lemma process_video_reachable contains s0 frames s :
  reachable contains s0 s ->
  reachable contains s0 (final (process_video contains frames s)).
Proof.
  apply (respects_process_video contains _ (reachable_step_relation contains s0)).
  intros d s' Hs'. by apply reach_detection.
Qed.

Lemma registry_valid_register y s :
  registry_valid s ->
  yolo_id_to_custom_id s !! y = None ->
  registry_valid (register_id y s).
Proof.
  intros (Hrange & Hinj & Hsize & Hled) Hy. unfold registry_valid. cbn.
  split; [| split; [| split]].
  - intros y' u. destruct (decide (y = y')) as [<- | Hne].
    + rewrite lookup_insert_eq. intros [= <-].
      assert (0 <= next_custom_id s - 1) by lia. lia.
    + rewrite lookup_insert_ne by exact Hne. intros H. specialize (Hrange _ _ H). lia.
  - intros y1 y2 u.
    destruct (decide (y = y1)) as [<- | Hne1], (decide (y = y2)) as [<- | Hne2];
      rewrite ?lookup_insert_eq, ?lookup_insert_ne by assumption.
    + reflexivity.
    + intros [= <-] H. specialize (Hrange _ _ H). lia.
    + intros H [= <-]. specialize (Hrange _ _ H). lia.
    + apply Hinj.
  - rewrite map_size_insert_None by exact Hy. lia.
  - intros u k H. destruct (Hled _ _ H) as [y' Hy']. exists y'.
    rewrite lookup_insert_ne; [exact Hy' | congruence].
Qed.

Lemma registry_valid_commit y u in_r1 in_r2 s :
  registry_valid s ->
  yolo_id_to_custom_id s !! y = Some u ->
  registry_valid (commit u in_r1 in_r2 s).
Proof.
  intros (Hrange & Hinj & Hsize & Hled) Hy.
  destruct (commit_other u in_r1 in_r2 s) as (_ & _ & Hreg & Hnext & _).
  unfold registry_valid. rewrite Hreg, Hnext, commit_ledger.
  split; [exact Hrange |]. split; [exact Hinj |]. split; [exact Hsize |].
  intros u' k.
  destruct in_r1; [| destruct in_r2]; [| | apply Hled];
    (destruct (decide (u = u')) as [<- | Hne];
     [intros _; eauto | rewrite lookup_insert_ne by exact Hne; apply Hled]).
Qed.

Lemma registry_valid_resolve y s s1 t1 u :
  resolve_custom_id y s = mkResult s1 t1 (Normal u) ->
  registry_valid s -> registry_valid s1.
Proof.
  intros Hres Hvalid.
  apply resolve_inv in Hres as [(_ & -> & _) | (Hy & _ & -> & _)];
    [exact Hvalid | by apply registry_valid_register].
Qed.

Lemma registry_valid_process_detection contains d s :
  registry_valid s -> registry_valid (final (process_detection contains d s)).
Proof.
  intros Hvalid.
  destruct (process_detection_run contains d s)
    as [box cls_val y Hcls | box y Hbox
       | x1 y1 x2 y2 y s1 t1 u k Hres Hass
       | x1 y1 x2 y2 y s1 t1 u t2 in_r1 in_r2 Hres Hass Hscan]; cbn [final];
    try exact Hvalid.
  - exact (registry_valid_resolve _ _ _ _ _ Hres Hvalid).
  - destruct (extends_resolve _ _ _ _ _ Hres) as (_ & _ & Hy).
    eapply registry_valid_commit; [| exact Hy].
    exact (registry_valid_resolve _ _ _ _ _ Hres Hvalid).
Qed.

Lemma registry_valid_start region1_points region2_points s0 :
  __init__ region1_points region2_points = Some s0 -> registry_valid s0.
Proof.
  intros Hinit. apply init_start in Hinit as (p1 & p2 & _ & _ & ->).
  unfold registry_valid. cbn. split; [| split; [| split]].
  - intros y u H. rewrite lookup_empty in H. discriminate.
  - intros y1 y2 u H. rewrite lookup_empty in H. discriminate.
  - rewrite map_size_empty. reflexivity.
  - intros u k H. rewrite lookup_empty in H. discriminate.
Qed.

Lemma reachable_registry_valid contains s0 s :
  registry_valid s0 -> reachable contains s0 s -> registry_valid s.
Proof.
  intros H0 Hreach. induction Hreach as [| s d _ IH | s classes _ IH].
  - exact H0.
  - by apply registry_valid_process_detection.
  - exact IH.
Qed.

(** X1 (the registry is a numbering).  In every state that a run from the
    initial state goes through, two different tracker ids never share an
    identity, every identity in the registry lies between 1 and
    [next_custom_id - 1], and the registry holds exactly
    [next_custom_id - 1] entries: the identities in use are 1, 2, ...,
    [next_custom_id - 1] without a gap. *)
Theorem registry_numbering
    (contains : Shapely.polygon -> Shapely.point -> bool)
    (region1_points region2_points : list (Q * Q))
    (s0 s : RegionPersistentCounter) :
  __init__ region1_points region2_points = Some s0 ->
  reachable contains s0 s ->
  (forall y1 y2 u,
     yolo_id_to_custom_id s !! y1 = Some u ->
     yolo_id_to_custom_id s !! y2 = Some u -> y1 = y2)
  /\ (forall y u, yolo_id_to_custom_id s !! y = Some u -> 1 <= u < next_custom_id s)
  /\ Z.of_nat (size (yolo_id_to_custom_id s)) = next_custom_id s - 1.
Proof.
  intros Hinit Hreach.
  destruct (reachable_registry_valid contains s0 s
              (registry_valid_start _ _ _ Hinit) Hreach)
    as (Hrange & Hinj & Hsize & _).
  auto.
Qed.

Lemma registry_numbering_witness :
  (__init__ (rectangle 150 250 150 250) (rectangle 1000 1100 1000 1100)
   = Some start_a
   /\ reachable Shapely.contains start_a
        (final (process_video Shapely.contains
                  [single_detection [100; 100; 200; 200] 28 7;
                   single_detection [0; 0; 10; 10] 28 3] start_a)))
  /\ Z.of_nat (size (yolo_id_to_custom_id
                      (final (process_video Shapely.contains
                                [single_detection [100; 100; 200; 200] 28 7;
                                 single_detection [0; 0; 10; 10] 28 3] start_a))))
     = next_custom_id
         (final (process_video Shapely.contains
                   [single_detection [100; 100; 200; 200] 28 7;
                    single_detection [0; 0; 10; 10] 28 3] start_a)) - 1.
Proof.
  assert (Hinit : __init__ (rectangle 150 250 150 250)
                    (rectangle 1000 1100 1000 1100) = Some start_a)
    by (vm_compute; reflexivity).
  assert (Hreach : reachable Shapely.contains start_a
                     (final (process_video Shapely.contains
                               [single_detection [100; 100; 200; 200] 28 7;
                                single_detection [0; 0; 10; 10] 28 3] start_a)))
    by (apply process_video_reachable, reach_start).
  split; [split; assumption |].
  exact (proj2 (proj2 (registry_numbering Shapely.contains _ _ _ _ Hinit Hreach))).
Defined.

(** A duplicate-free list of integers from 1 to [n] has at most [n] items. *)
Lemma NoDup_bounded_length (l : list Z) (n : Z) :
  0 <= n -> NoDup l -> (forall u, u ∈ l -> 1 <= u <= n) ->
  Z.of_nat (length l) <= n.
Proof.
  intros Hn Hnd Hin.
  assert (Hsub : l ⊆+ seqZ 1 n).
  { apply NoDup_submseteq; [exact Hnd |].
    intros u Hu. apply elem_of_seqZ. specialize (Hin _ Hu). lia. }
  apply submseteq_length in Hsub. rewrite length_seqZ in Hsub. lia.
Qed.

(** X2 (only issued identities are counted).  In every state that a run from
    the initial state goes through, each identity in the ledger was issued to
    some tracker id, and the total count that [draw_statistics] reports is
    at most the number of identities issued, [next_custom_id - 1]. *)
Theorem counted_identities_issued
    (contains : Shapely.polygon -> Shapely.point -> bool)
    (region1_points region2_points : list (Q * Q))
    (s0 s : RegionPersistentCounter) :
  __init__ region1_points region2_points = Some s0 ->
  reachable contains s0 s ->
  (forall u k,
     object_region_assignments s !! u = Some k ->
     1 <= u < next_custom_id s /\ exists y, yolo_id_to_custom_id s !! y = Some u)
  /\ (draw_statistics s).1.1 <= next_custom_id s - 1.
Proof.
  intros Hinit Hreach.
  destruct (reachable_registry_valid contains s0 s
              (registry_valid_start _ _ _ Hinit) Hreach)
    as (Hrange & Hinj & Hsize & Hled).
  assert (Hkeys : forall u k,
            object_region_assignments s !! u = Some k ->
            1 <= u < next_custom_id s
            /\ exists y, yolo_id_to_custom_id s !! y = Some u).
  { intros u k H. destruct (Hled _ _ H) as [y Hy]. split; [eapply Hrange | ]; eauto. }
  split; [exact Hkeys |].
  assert (Hvalid : ledger_valid s).
  { eapply reachable_ledger_valid; [| exact Hreach].
    apply init_start in Hinit as (p1 & p2 & _ & _ & ->).
    intros u k H. cbn in H. rewrite lookup_empty in H. discriminate. }
  destruct (ledger_valid_counts s Hvalid) as [Hsum Htotal].
  unfold draw_statistics in *. cbn [fst] in *. rewrite Htotal.
  rewrite <- length_map_to_list, <- (length_fmap fst).
  apply NoDup_bounded_length; [lia | apply NoDup_fst_map_to_list |].
  intros u Hu. apply list_elem_of_fmap in Hu as ([u' k] & -> & Hin).
  apply elem_of_map_to_list in Hin. destruct (Hkeys _ _ Hin) as [? _]. cbn. lia.
Qed.

Lemma counted_identities_issued_witness :
  (__init__ (rectangle 150 250 150 250) (rectangle 1000 1100 1000 1100)
   = Some start_a
   /\ reachable Shapely.contains start_a
        (final (process_video Shapely.contains
                  [single_detection [100; 100; 200; 200] 28 7;
                   single_detection [0; 0; 10; 10] 28 3] start_a)))
  /\ (draw_statistics
        (final (process_video Shapely.contains
                  [single_detection [100; 100; 200; 200] 28 7;
                   single_detection [0; 0; 10; 10] 28 3] start_a))).1.1
     <= next_custom_id
          (final (process_video Shapely.contains
                    [single_detection [100; 100; 200; 200] 28 7;
                     single_detection [0; 0; 10; 10] 28 3] start_a)) - 1.
Proof.
  assert (Hinit : __init__ (rectangle 150 250 150 250)
                    (rectangle 1000 1100 1000 1100) = Some start_a)
    by (vm_compute; reflexivity).
  assert (Hreach : reachable Shapely.contains start_a
                     (final (process_video Shapely.contains
                               [single_detection [100; 100; 200; 200] 28 7;
                                single_detection [0; 0; 10; 10] 28 3] start_a)))
    by (apply process_video_reachable, reach_start).
  split; [split; assumption |].
  exact (proj2 (counted_identities_issued Shapely.contains _ _ _ _ Hinit Hreach)).
Defined.

(* ===================================================================== *)
(** ** Counting each identity once *)
(* ===================================================================== *)

(** A new ledger entry adds one to the count of its region and nothing to
    the other counts. *)
Lemma count_assigned_insert (r u k : Z) (m : gmap Z Z) :
  m !! u = None ->
  count_assigned r (<[u := k]> m)
  = count_assigned r m + (if decide (k = r) then 1 else 0).
Proof.
  intros Hu. unfold count_assigned.
  rewrite (map_to_list_insert m u k Hu). cbn [fmap list_fmap snd].
  destruct (decide (k = r)) as [Hk | Hk].
  - rewrite filter_cons_True by exact Hk. cbn [length]. lia.
  - rewrite filter_cons_False by exact Hk. lia.
Qed.

(** What the loop body does to the counts: nothing, or one more in exactly
    one region, for an identity that had no region. *)
Lemma process_detection_counts contains d s :
  let s' := final (process_detection contains d s) in
  let m := object_region_assignments s in
  let m' := object_region_assignments s' in
  m' = m
  \/ exists u k,
       (k = 1 \/ k = 2) /\ m !! u = None /\ m' = <[u := k]> m
       /\ count_assigned 1 m' = count_assigned 1 m + (if decide (k = 1) then 1 else 0)
       /\ count_assigned 2 m' = count_assigned 2 m + (if decide (k = 2) then 1 else 0).
Proof.
  cbn zeta.
  destruct (process_detection_run contains d s)
    as [box cls_val y Hcls | box y Hbox
       | x1 y1 x2 y2 y s1 t1 u k Hres Hass
       | x1 y1 x2 y2 y s1 t1 u t2 in_r1 in_r2 Hres Hass Hscan]; cbn [final];
    try (left; reflexivity).
  - left. by destruct (extends_resolve _ _ _ _ _ Hres) as (_ & -> & _).
  - destruct (extends_resolve _ _ _ _ _ Hres) as (_ & Hled & _).
    rewrite commit_ledger, Hled. rewrite Hled in Hass.
    destruct in_r1; [| destruct in_r2]; [| | left; reflexivity]; right.
    + exists u, 1. rewrite !count_assigned_insert by exact Hass. auto 6.
    + exists u, 2. rewrite !count_assigned_insert by exact Hass. auto 6.
Qed.

(** X3 (a detection counts at most one object, in one region).  Processing
    one detection either leaves the three counts of [draw_statistics] as they
    were, or records a region for an identity that had none and then raises
    the total and the count of that one region by exactly one, leaving the
    count of the other region alone. *)
Theorem detection_counts_once
    (contains : Shapely.polygon -> Shapely.point -> bool)
    (d : list Z * Z * Z) (s : RegionPersistentCounter) :
  let s' := final (process_detection contains d s) in
  let '(total_count, region1_count, region2_count) := draw_statistics s in
  draw_statistics s' = (total_count, region1_count, region2_count)
  \/ (exists u,
        object_region_assignments s !! u = None
        /\ object_region_assignments s' !! u = Some 1
        /\ draw_statistics s' = (total_count + 1, region1_count + 1, region2_count))
  \/ (exists u,
        object_region_assignments s !! u = None
        /\ object_region_assignments s' !! u = Some 2
        /\ draw_statistics s' = (total_count + 1, region1_count, region2_count + 1)).
Proof.
  cbn zeta. unfold draw_statistics.
  destruct (process_detection_counts contains d s)
    as [-> | (u & k & Hk & Hu & -> & H1 & H2)]; [left; reflexivity | right].
  rewrite H1, H2.
  destruct Hk as [-> | ->]; [left | right]; exists u;
    (split; [exact Hu |]); (split; [apply lookup_insert_eq |]);
    cbn; repeat (match goal with |- (_, _) = (_, _) => apply f_equal2 end). all: repeat case_decide; lia.
Qed.

Lemma counts_grow_step_relation : step_relation counts_grow.
Proof.
  split.
  - intros s. split; lia.
  - intros s t1 s1 t2 s2 [H1 H2] [H3 H4]. split; lia.
  - intros s m. split; lia.
  - intros s classes. split; cbn; lia.
Qed.

Lemma counts_grow_process_detection contains d :
  respects counts_grow (process_detection contains d).
Proof.
  intros s. unfold counts_grow.
  destruct (process_detection_counts contains d s)
    as [-> | (u & k & _ & _ & _ & -> & ->)]; [split; lia |].
  split; case_decide; lia.
Qed.

(** X4 (the counts never go down).  Over any run of [process_video], from any
    state, none of the three counts that [draw_statistics] reports is lower
    at the end than at the start. *)
Theorem counts_never_decrease
    (contains : Shapely.polygon -> Shapely.point -> bool)
    (frames : list FrameInput) (s : RegionPersistentCounter) :
  let '(total_count, region1_count, region2_count) := draw_statistics s in
  let '(total_count', region1_count', region2_count') :=
    draw_statistics (final (process_video contains frames s)) in
  total_count <= total_count'
  /\ region1_count <= region1_count'
  /\ region2_count <= region2_count'.
Proof.
  unfold draw_statistics.
  destruct (respects_process_video contains counts_grow counts_grow_step_relation
              (counts_grow_process_detection contains) frames s) as [H1 H2].
  lia.
Qed.

(* ===================================================================== *)
(** ** Announcements of assignments *)
(* ===================================================================== *)

Section QuietLifting.

Variable contains : Shapely.polygon -> Shapely.point -> bool.
Variable R : RegionPersistentCounter -> list event -> RegionPersistentCounter -> Prop.
Hypothesis HR : quiet_relation R.
Hypothesis Hbody : forall d, respects R (process_detection contains d).

Lemma quiet_bind {A B} (m : M A) (f : A -> M B) :
  respects R m -> (forall a, respects R (f a)) -> respects R (m ≫= f).
Proof.
  intros Hm Hf s. rewrite bind_eq. specialize (Hm s).
  destruct (value (m s)) as [a | e]; cbn; [| exact Hm].
  eapply (qr_trans R HR); [exact Hm | apply Hf].
Qed.

Lemma quiet_when_print b m :
  (forall u k, m ≠ MsgAssigned u k) -> respects R (when b (print m)).
Proof.
  intros Hm s. rewrite when_print_run. cbn.
  destruct b; [by apply (qr_print R HR) | apply (qr_refl R HR)].
Qed.

Lemma quiet_for_each {X} (body : X -> M unit) (l : list X) :
  (forall x, respects R (body x)) -> respects R (for_each body l).
Proof.
  intros Hb. induction l as [| x rest IH]; [intros s; apply (qr_refl R HR) |].
  intros s. rewrite for_each_cons. apply quiet_bind; auto.
Qed.

Lemma quiet_process_frame results frame_count :
  respects R (process_frame contains results frame_count).
Proof.
  assert (Hnone : respects R (no_detections frame_count))
    by (apply quiet_when_print; discriminate).
  unfold process_frame.
  destruct results as [| r0 rest]; [exact Hnone |].
  destruct (boxes r0) as [b |]; [| exact Hnone].
  destruct (0 <? length (boxes_xyxy b))%nat; [| exact Hnone].
  apply quiet_bind.
  { unfold class_statistics. destruct (boxes_cls b) as [classes |];
      [| intros s; apply (qr_refl R HR)].
    apply quiet_bind; [intros s; apply (qr_counts R HR) |].
    intros _. apply quiet_when_print. discriminate. }
  intros _. destruct (boxes_id b) as [track_ids |];
    [| apply quiet_when_print; discriminate].
  intros s. rewrite try_except_print_run.
  assert (Hblock : respects R (tracking_block contains b track_ids)).
  { unfold tracking_block. apply quiet_bind.
    - destruct (boxes_cls b); intros s'; apply (qr_refl R HR).
    - intros classes. apply quiet_for_each, Hbody. }
  specialize (Hblock s).
  destruct (value (tracking_block contains b track_ids s)) as [a | e];
    [exact Hblock |]. cbn.
  eapply (qr_trans R HR); [exact Hblock |]. apply (qr_print R HR). discriminate.
Qed.

Lemma quiet_video_loop frames : forall frame_count,
  respects R (video_loop contains frame_count frames).
Proof.
  induction frames as [| f rest IH]; intros frame_count; cbn [video_loop].
  - intros s. apply (qr_print R HR). discriminate.
  - apply quiet_bind; [apply quiet_when_print; discriminate |].
    intros _. apply quiet_bind; [apply quiet_process_frame |].
    intros _. destruct (quit_key f); [intros s; apply (qr_refl R HR) | apply IH].
Qed.

Lemma quiet_process_video frames :
  respects R (process_video contains frames).
Proof.
  unfold process_video. apply quiet_bind; [apply quiet_video_loop |].
  intros _. apply quiet_bind; [intros s; apply (qr_refl R HR) |].
  intros self. destruct (draw_statistics self) as [[total r1] r2].
  apply quiet_bind; [intros s; apply (qr_print R HR); discriminate |].
  intros _. apply quiet_for_each. intros kv s. apply (qr_print R HR). discriminate.
Qed.

End QuietLifting.

Lemma announced_app t1 t2 : announced (t1 ++ t2) = announced t1 ++ announced t2.
Proof.
  induction t1 as [| ev t1 IH]; [reflexivity |].
  destruct ev as [[] | |]; cbn; rewrite ?IH; reflexivity.
Qed.

(** A run that announces nothing and leaves the ledger alone. *)
Lemma announcement_silent s t s' :
  announced t = [] ->
  object_region_assignments s' = object_region_assignments s ->
  announcement s t s'.
Proof.
  intros Ht Hled. unfold announcement. rewrite Ht, Hled. cbn.
  split; [| split].
  - intros u k. split; [auto |]. intros [H | H]; [exact H | inversion H].
  - intros u k H. inversion H.
  - constructor.
Qed.

Lemma announcement_quiet_relation : quiet_relation announcement.
Proof.
  split.
  - intros s. by apply announcement_silent.
  - intros s t1 s1 t2 s2 (Hled1 & Hnew1 & Hnd1) (Hled2 & Hnew2 & Hnd2).
    unfold announcement. rewrite announced_app, fmap_app.
    split; [| split].
    + intros u k. rewrite Hled2, Hled1, elem_of_app. tauto.
    + intros u k Hin. apply elem_of_app in Hin as [Hin | Hin]; [eauto |].
      specialize (Hnew2 _ _ Hin).
      destruct (object_region_assignments s !! u) as [k' |] eqn:E; [| reflexivity].
      assert (object_region_assignments s1 !! u = Some k') by (apply Hled1; auto).
      congruence.
    + apply NoDup_app. split; [exact Hnd1 |]. split; [| exact Hnd2].
      intros u Hu1 Hu2.
      apply list_elem_of_fmap in Hu1 as ([u1 k1] & -> & Hin1).
      apply list_elem_of_fmap in Hu2 as ([u2 k2] & Heq & Hin2). cbn in Heq. subst u2.
      specialize (Hnew2 _ _ Hin2).
      assert (object_region_assignments s1 !! u1 = Some k1) by (apply Hled1; auto).
      congruence.
  - intros s m Hm. apply announcement_silent; [| reflexivity].
    destruct m; try reflexivity. exfalso. by eapply Hm.
  - intros s classes. by apply announcement_silent.
Qed.

Lemma announced_none t :
  (forall ev, ev ∈ t -> forall u k, ev ≠ EvPrint (MsgAssigned u k)) ->
  announced t = [].
Proof.
  induction t as [| ev t IH]; intros H; [reflexivity |].
  assert (Ht : announced t = []) by (apply IH; intros ev' Hev'; apply H; by right).
  destruct ev as [[] | |]; cbn; try exact Ht.
  exfalso. eapply (H (EvPrint (MsgAssigned _ _))); [left | reflexivity].
Qed.

Lemma announced_resolve y s s1 t1 u :
  resolve_custom_id y s = mkResult s1 t1 (Normal u) -> announced t1 = [].
Proof.
  intros H. apply resolve_inv in H as [(_ & _ & ->) | (_ & _ & _ & ->)]; reflexivity.
Qed.

Lemma announcement_process_detection contains d :
  respects announcement (process_detection contains d).
Proof.
  intros s.
  destruct (process_detection_run contains d s)
    as [box cls_val y Hcls | box y Hbox
       | x1 y1 x2 y2 y s1 t1 u k Hres Hass
       | x1 y1 x2 y2 y s1 t1 u t2 in_r1 in_r2 Hres Hass Hscan]; cbn [final trace].
  - by apply announcement_silent.
  - by apply announcement_silent.
  - destruct (extends_resolve _ _ _ _ _ Hres) as (_ & Hled & _).
    apply announcement_silent; [exact (announced_resolve _ _ _ _ _ Hres) | exact Hled].
  - destruct (extends_resolve _ _ _ _ _ Hres) as (_ & Hled & _).
    assert (Ht2 : announced t2 = []).
    { apply announced_none. intros ev Hin u' k' ->.
      destruct (region_scan_run contains u (check_points x1 y1 x2 y2) s1)
        as (t & b1 & b2 & Heq & Hev).
      rewrite Heq in Hscan. injection Hscan as <- _ _.
      destruct (Hev _ Hin) as (cp' & k'' & Habs & _). discriminate. }
    unfold announcement.
    rewrite !announced_app, (announced_resolve _ _ _ _ _ Hres), Ht2, commit_ledger, Hled.
    rewrite Hled in Hass. cbn [app].
    destruct in_r1; [| destruct in_r2]; cbn.
    + split; [| split].
      * intros u' k'. rewrite list_elem_of_singleton.
        destruct (decide (u = u')) as [<- | Hne].
        -- rewrite lookup_insert_eq, Hass. split; [intros [= <-]; auto |].
           intros [H | [= <-]]; [discriminate | reflexivity].
        -- rewrite lookup_insert_ne by exact Hne. split; [auto |].
           intros [H | [= -> _]]; [exact H | contradiction].
      * intros u' k' Hin. apply list_elem_of_singleton in Hin as [= -> _]. exact Hass.
      * apply NoDup_singleton.
    + split; [| split].
      * intros u' k'. rewrite list_elem_of_singleton.
        destruct (decide (u = u')) as [<- | Hne].
        -- rewrite lookup_insert_eq, Hass. split; [intros [= <-]; auto |].
           intros [H | [= <-]]; [discriminate | reflexivity].
        -- rewrite lookup_insert_ne by exact Hne. split; [auto |].
           intros [H | [= -> _]]; [exact H | contradiction].
      * intros u' k' Hin. apply list_elem_of_singleton in Hin as [= -> _]. exact Hass.
      * apply NoDup_singleton.
    + split; [| split].
      * intros u' k'. split; [auto |]. intros [H | H]; [exact H | inversion H].
      * intros u' k' H. inversion H.
      * constructor.
Qed.

(** X5 (every assignment is announced once).  Over any run of
    [process_video], the lines [Unique ID u assigned to Region k] printed are
    exactly the entries that the ledger gains: the final ledger holds
    [u -> k] if and only if it held it at the start or the line for [u] and
    [k] was printed; a line is printed only for an identity that had no
    region at the start; and no identity is announced twice. *)
Theorem assignments_announced_once
    (contains : Shapely.polygon -> Shapely.point -> bool)
    (frames : list FrameInput) (s : RegionPersistentCounter) :
  let run := process_video contains frames s in
  (forall u k,
     object_region_assignments (final run) !! u = Some k <->
     object_region_assignments s !! u = Some k \/ (u, k) ∈ announced (trace run))
  /\ (forall u k,
        (u, k) ∈ announced (trace run) -> object_region_assignments s !! u = None)
  /\ NoDup (announced (trace run)).*1.
Proof.
  exact (quiet_process_video contains announcement announcement_quiet_relation
           (announcement_process_detection contains) frames s).
Qed.

(* ===================================================================== *)
(** ** An identity without a region is scanned again *)
(* ===================================================================== *)

(** Either no point of a list is in a region, or there is a first one. *)
Lemma first_hit_split contains (p1 p2 : Shapely.polygon) (l : list (Q * Q)) :
  Forall (λ p, is_in_region contains p p1 = false
               /\ is_in_region contains p p2 = false) l
  \/ exists pre cp post,
       l = pre ++ cp :: post
       /\ Forall (λ p, is_in_region contains p p1 = false
                       /\ is_in_region contains p p2 = false) pre
       /\ (is_in_region contains cp p1 = true \/ is_in_region contains cp p2 = true).
Proof.
  induction l as [| p l IH]; [left; constructor |].
  destruct (is_in_region contains p p1) eqn:E1.
  { right. exists [], p, l. repeat split; [constructor | by left]. }
  destruct (is_in_region contains p p2) eqn:E2.
  { right. exists [], p, l. repeat split; [constructor | by right]. }
  destruct IH as [Hall | (pre & cp & post & -> & Hpre & Hhit)].
  - left. constructor; auto.
  - right. exists (p :: pre), cp, post. repeat split; [constructor; auto | exact Hhit].
Qed.

(** X6 (retry until a hit).  For a well-formed suitcase detection whose
    tracker id is registered and whose identity has no region, the sample
    points of the current box are scanned afresh, starting with the
    top-right corner against Region 1.  The identity is still without a
    region afterwards exactly when none of the six points is in Region 1 or
    Region 2; in that case the counter is unchanged and all twelve tests were
    made, so the next detection of the identity is scanned in the same way;
    for a pixel-sized box the loop body then returns without an exception. *)
Theorem retry_until_hit
    (contains : Shapely.polygon -> Shapely.point -> bool)
    (x1 y1 x2 y2 y u : Z) (s : RegionPersistentCounter) :
  yolo_id_to_custom_id s !! y = Some u ->
  object_region_assignments s !! u = None ->
  let r := process_detection contains ([x1; y1; x2; y2], 28, y) s in
  let all_miss :=
    Forall (λ p, is_in_region contains p (region_polygon1 s) = false
                 /\ is_in_region contains p (region_polygon2 s) = false)
      (check_points x1 y1 x2 y2) in
  (exists rest, tests (trace r) = (u, (inject_Z x2, inject_Z y1), 1) :: rest)
  /\ (object_region_assignments (final r) !! u = None <-> all_miss)
  /\ (all_miss ->
      final r = s
      /\ trace r = both_tests u (check_points x1 y1 x2 y2)
      /\ (pixel_box x1 y1 x2 y2 -> value r = Normal tt)).
Proof.
  intros Hy Hu r all_miss.
  pose proof (resolve_seen y u s Hy) as Hres.
  assert (Hmiss : all_miss ->
            r = mkResult s (both_tests u (check_points x1 y1 x2 y2))
                  (draw_outcome (drawn_scanned x1 y1 x2 y2))).
  { intros Hall. unfold all_miss in Hall. rewrite Forall_forall in Hall.
    pose proof (region_scan_all_miss contains u _ s Hall) as Hscan.
    unfold r. rewrite (process_detection_scanned contains _ _ _ _ _ _ _ _ _ _ _ _
                         Hres Hu Hscan).
    unfold commit, commit_trace. cbn [app]. rewrite app_nil_r. reflexivity. }
  assert (Hlast : all_miss ->
            final r = s
            /\ trace r = both_tests u (check_points x1 y1 x2 y2)
            /\ (pixel_box x1 y1 x2 y2 -> value r = Normal tt)).
  { intros Hall. rewrite (Hmiss Hall). cbn [final trace value].
    split; [reflexivity |]. split; [reflexivity | apply draw_scanned_pixel_box]. }
  destruct (first_hit_split contains (region_polygon1 s) (region_polygon2 s)
              (check_points x1 y1 x2 y2))
    as [Hall | (pre & cp & post & Hcps & Hpre & Hhit)].
  - pose proof (Hmiss Hall) as Hr. split; [| split; [| exact Hlast]].
    + rewrite Hr. cbn [trace]. rewrite tests_both_tests. eexists. reflexivity.
    + rewrite Hr. cbn [final]. split; [intros _; exact Hall | intros _; exact Hu].
  - rewrite Forall_forall in Hpre.
    pose proof (process_detection_first_hit contains _ _ _ _ _ _ _ _ _ _ _ _
                  Hres Hu Hcps Hpre Hhit) as Heq.
    cbn zeta in Heq. fold r in Heq.
    split; [| split; [| exact Hlast]].
    + rewrite Heq. cbn [trace app].
      rewrite !tests_app, tests_both_tests.
      destruct pre as [| p pre].
      * cbn [app] in Hcps. injection Hcps as <- _. cbn. eexists. reflexivity.
      * cbn [app] in Hcps. injection Hcps as <- _. cbn. eexists. reflexivity.
    + rewrite Heq. cbn [final set_assignment object_region_assignments].
      rewrite lookup_insert_eq. split; [discriminate |].
      intros Hall. exfalso. unfold all_miss in Hall. rewrite Forall_forall in Hall.
      destruct (Hall cp) as [H1 H2]; [rewrite Hcps; apply elem_of_app; right; left |].
      destruct Hhit; congruence.
Qed.

(** Identity 1 waits for a region: a box away from both regions changes
    nothing, and all twelve tests are made. *)
Lemma retry_until_hit_witness :
  (yolo_id_to_custom_id pending_a !! 7 = Some 1
   /\ object_region_assignments pending_a !! 1 = None
   /\ pixel_box 0 0 10 10)
  /\ let r := process_detection Shapely.contains ([0; 0; 10; 10], 28, 7) pending_a in
     (exists rest, tests (trace r) = (1, (inject_Z 10, inject_Z 0), 1) :: rest)
     /\ final r = pending_a
     /\ trace r = both_tests 1 (check_points 0 0 10 10)
     /\ value r = Normal tt.
Proof.
  assert (H1 : yolo_id_to_custom_id pending_a !! 7 = Some 1)
    by (vm_compute; reflexivity).
  assert (H2 : object_region_assignments pending_a !! 1 = None)
    by (vm_compute; reflexivity).
  assert (H3 : pixel_box 0 0 10 10) by (unfold pixel_box; lia).
  split; [auto |].
  destruct (retry_until_hit Shapely.contains 0 0 10 10 7 1 pending_a H1 H2)
    as (Hfirst & _ & Hmiss).
  split; [exact Hfirst |].
  destruct Hmiss as (Hfinal & Htrace & Hvalue).
  { repeat constructor; vm_compute; reflexivity. }
  split; [exact Hfinal |]. split; [exact Htrace | exact (Hvalue H3)].
Defined.

(* ===================================================================== *)
(** ** Frames without usable tracker output *)
(* ===================================================================== *)

Lemma class_statistics_run b frame_count s :
  exists t,
    class_statistics b frame_count s
    = mkResult (match boxes_cls b with
                | Some classes => add_class_counts classes s
                | None => s
                end) t (Normal tt)
    /\ issues t = [] /\ tests t = [] /\ announced t = [].
Proof.
  unfold class_statistics. destruct (boxes_cls b) as [classes |].
  - rewrite bind_eq. cbn. rewrite when_print_run. cbn [value final trace].
    eexists. split; [reflexivity |].
    destruct (frame_count <=? 10); auto.
  - exists []. auto.
Qed.

(** X7 (nothing to track).  When the tracker returns no result, no boxes, an
    empty list of boxes, or boxes without a track-id column, [process_frame]
    ends normally and leaves the registry, the issuance counter and the
    ledger as they were: nothing is issued, tested or assigned, even if the
    boxes hold suitcases inside a region. *)
Theorem nothing_tracked_nothing_counted
    (contains : Shapely.polygon -> Shapely.point -> bool)
    (results : list Results) (frame_count : Z) (s : RegionPersistentCounter) :
  nothing_to_track results ->
  let r := process_frame contains results frame_count s in
  value r = Normal tt
  /\ yolo_id_to_custom_id (final r) = yolo_id_to_custom_id s
  /\ next_custom_id (final r) = next_custom_id s
  /\ object_region_assignments (final r) = object_region_assignments s
  /\ issues (trace r) = [] /\ tests (trace r) = [] /\ announced (trace r) = [].
Proof.
  intros Hnothing r.
  assert (Hnone : let r := no_detections frame_count s in
            value r = Normal tt
            /\ yolo_id_to_custom_id (final r) = yolo_id_to_custom_id s
            /\ next_custom_id (final r) = next_custom_id s
            /\ object_region_assignments (final r) = object_region_assignments s
            /\ issues (trace r) = [] /\ tests (trace r) = []
            /\ announced (trace r) = []).
  { unfold no_detections. rewrite when_print_run. cbn.
    destruct (frame_count `mod` 10 =? 0); auto 10. }
  unfold r, process_frame, nothing_to_track in *.
  destruct results as [| r0 rest]; [exact Hnone |].
  destruct (boxes r0) as [b |]; [| exact Hnone].
  destruct Hnothing as [Hempty | Hid].
  - rewrite Hempty. exact Hnone.
  - destruct (0 <? length (boxes_xyxy b))%nat; [| exact Hnone].
    rewrite bind_eq.
    destruct (class_statistics_run b frame_count s) as (t & -> & Hi & Ht & Ha).
    cbn [value final trace]. rewrite Hid, when_print_run. cbn [value final trace].
    rewrite issues_app, tests_app, announced_app, Hi, Ht, Ha.
    destruct (boxes_cls b); destruct (frame_count `mod` 10 =? 0); cbn; auto 10.
Qed.

(** A suitcase in the middle of Region 1 that the tracker did not number. *)
Lemma nothing_tracked_nothing_counted_witness :
  nothing_to_track untracked_results
  /\ let r := process_frame Shapely.contains untracked_results 1 start_a in
     value r = Normal tt
     /\ yolo_id_to_custom_id (final r) = yolo_id_to_custom_id start_a
     /\ next_custom_id (final r) = next_custom_id start_a
     /\ object_region_assignments (final r) = object_region_assignments start_a
     /\ issues (trace r) = [] /\ tests (trace r) = [] /\ announced (trace r) = [].
Proof.
  assert (H : nothing_to_track untracked_results) by (right; reflexivity).
  split; [exact H |].
  exact (nothing_tracked_nothing_counted Shapely.contains untracked_results 1
           start_a H).
Defined.

(** X8 (a frame without class column).  When the boxes of a frame come with
    track ids but without the class column, the guarded block raises
    [AttributeError] before any detection is looked at: [process_frame]
    prints the error, ends normally and leaves the whole counter unchanged. *)
Theorem missing_classes_skip_frame
    (contains : Shapely.polygon -> Shapely.point -> bool)
    (b : Boxes) (other : list Results) (track_ids : list Z) (frame_count : Z)
    (s : RegionPersistentCounter) :
  boxes_xyxy b ≠ [] ->
  boxes_cls b = None ->
  boxes_id b = Some track_ids ->
  process_frame contains (mkResults (Some b) :: other) frame_count s
  = mkResult s [EvPrint (MsgErrorTracking AttributeError)] (Normal tt).
Proof.
  intros Hlen Hcls Hid. unfold process_frame. cbn [boxes].
  destruct (boxes_xyxy b) as [| box0 rest]; [congruence |]. cbn [length Nat.ltb Nat.leb].
  rewrite bind_eq. unfold class_statistics. rewrite Hcls, Hid.
  cbn [mret M_ret ret value final trace app].
  rewrite try_except_print_run. unfold tracking_block. rewrite Hcls, bind_eq.
  reflexivity.
Qed.

Lemma missing_classes_skip_frame_witness :
  (boxes_xyxy classless_boxes ≠ []
   /\ boxes_cls classless_boxes = None
   /\ boxes_id classless_boxes = Some [7])
  /\ process_frame Shapely.contains [mkResults (Some classless_boxes)] 1 start_a
     = mkResult start_a [EvPrint (MsgErrorTracking AttributeError)] (Normal tt).
Proof.
  split; [repeat split; discriminate |].
  apply (missing_classes_skip_frame Shapely.contains classless_boxes [] [7] 1
           start_a); [discriminate | reflexivity | reflexivity].
Defined.

(* ===================================================================== *)
(** ** What an exception leaves undone *)
(* ===================================================================== *)

Lemma for_each_app {X} (body : X -> M unit) (l1 l2 : list X) s :
  for_each body (l1 ++ l2) s = (for_each body l1 ≫= λ _, for_each body l2) s.
Proof.
  revert s. induction l1 as [| x l1 IH]; intros s.
  - cbn [app]. rewrite bind_eq. cbn. apply result_eta.
  - cbn [app]. rewrite for_each_cons, !bind_eq, for_each_cons, bind_eq.
    destruct (value (body x s)) as [[] |]; cbn [value final trace]; [| reflexivity].
    rewrite IH, bind_eq.
    destruct (value (for_each body l1 (final (body x s)))); cbn [value final trace];
      rewrite ?app_assoc; reflexivity.
Qed.

(** X9 (a malformed suitcase box ends the frame).  When the detections of a
    frame before a suitcase whose box does not hold four values are processed
    without exception, the loop stops at that suitcase with [ValueError], in
    the state and with the trace reached before it: the malformed detection
    and all detections after it in the frame are not processed, whatever they
    are. *)
Theorem malformed_box_ends_frame
    (contains : Shapely.polygon -> Shapely.point -> bool)
    (pre post : list (list Z * Z * Z)) (box : list Z) (yolo_id : Z)
    (s : RegionPersistentCounter) :
  (forall x1 y1 x2 y2, box ≠ [x1; y1; x2; y2]) ->
  value (for_each (process_detection contains) pre s) = Normal tt ->
  for_each (process_detection contains) (pre ++ (box, 28, yolo_id) :: post) s
  = mkResult (final (for_each (process_detection contains) pre s))
      (trace (for_each (process_detection contains) pre s))
      (Raise ValueError).
Proof.
  intros Hbox Hpre. rewrite for_each_app, bind_eq, Hpre, for_each_cons, bind_eq.
  assert (Hbad : forall s', process_detection contains (box, 28, yolo_id) s'
                            = mkResult s' [] (Raise ValueError)).
  { intros s'. unfold process_detection. cbn [Z.eqb Pos.eqb]. rewrite bind_eq.
    destruct box as [| x1 [| y1 [| x2 [| y2 [| extra box]]]]]; try reflexivity.
    exfalso. by eapply Hbox. }
  rewrite Hbad. cbn [value final trace]. rewrite app_nil_r. reflexivity.
Qed.

(** The three suitcases of [broken_boxes]: the first is assigned, the second
    has three values, the third is never looked at. *)
Lemma malformed_box_ends_frame_witness :
  ((forall x1 y1 x2 y2 : Z, [1; 2; 3] ≠ [x1; y1; x2; y2])
   /\ value (for_each (process_detection Shapely.contains)
               [([100; 100; 200; 200], 28, 7)] start_a) = Normal tt)
  /\ for_each (process_detection Shapely.contains)
       ([([100; 100; 200; 200], 28, 7)] ++ ([1; 2; 3], 28, 8)
        :: [([0; 0; 10; 10], 28, 9)]) start_a
     = mkResult
         (final (for_each (process_detection Shapely.contains)
                   [([100; 100; 200; 200], 28, 7)] start_a))
         (trace (for_each (process_detection Shapely.contains)
                   [([100; 100; 200; 200], 28, 7)] start_a))
         (Raise ValueError).
Proof.
  assert (H1 : forall x1 y1 x2 y2 : Z, [1; 2; 3] ≠ [x1; y1; x2; y2])
    by (intros; discriminate).
  assert (H2 : value (for_each (process_detection Shapely.contains)
                        [([100; 100; 200; 200], 28, 7)] start_a) = Normal tt)
    by (vm_compute; reflexivity).
  split; [auto |].
  exact (malformed_box_ends_frame Shapely.contains
           [([100; 100; 200; 200], 28, 7)] [([0; 0; 10; 10], 28, 9)] [1; 2; 3] 8
           start_a H1 H2).
Defined.

(* ===================================================================== *)
(** ** The video loop: quitting, composing, reporting *)
(* ===================================================================== *)

(** X10 (quitting ends the run).  When the key [q] is pressed after a frame,
    the loop ends there: the frames that the video still holds have no
    effect on the state, the trace or the outcome of [video_loop] and of
    [process_video]; the final counts are still printed. *)
Theorem quit_key_ends_run
    (contains : Shapely.polygon -> Shapely.point -> bool)
    (pre post : list FrameInput) (f : FrameInput) (s : RegionPersistentCounter) :
  quit_key f = true ->
  (forall frame_count,
     video_loop contains frame_count (pre ++ f :: post) s
     = video_loop contains frame_count (pre ++ [f]) s)
  /\ process_video contains (pre ++ f :: post) s
     = process_video contains (pre ++ [f]) s.
Proof.
  intros Hquit.
  assert (Hloop : forall frame_count s',
            video_loop contains frame_count (pre ++ f :: post) s'
            = video_loop contains frame_count (pre ++ [f]) s').
  { induction pre as [| f' pre IH]; intros frame_count s'; cbn [app].
    - rewrite !video_loop_cons. cbn zeta. rewrite Hquit. reflexivity.
    - rewrite !video_loop_cons. cbn zeta.
      destruct (quit_key f'); [reflexivity |]. rewrite IH. reflexivity. }
  split; [intros frame_count; apply Hloop |].
  unfold process_video. rewrite !bind_eq, Hloop. reflexivity.
Qed.

Lemma quit_key_ends_run_witness :
  quit_key last_frame = true
  /\ process_video Shapely.contains
       ([] ++ last_frame :: [single_detection [0; 0; 10; 10] 28 9]) start_a
     = process_video Shapely.contains ([] ++ [last_frame]) start_a.
Proof.
  split; [reflexivity |].
  exact (proj2 (quit_key_ends_run Shapely.contains []
                  [single_detection [0; 0; 10; 10] 28 9] last_frame start_a
                  eq_refl)).
Defined.

(** X11 (runs compose).  As long as the user does not quit, processing a
    video in one go ends in the same state as processing a first part of it
    and then the rest from the state reached, with the frame counter carried
    on. *)
Theorem video_loop_composes
    (contains : Shapely.polygon -> Shapely.point -> bool)
    (frames1 frames2 : list FrameInput) (frame_count : Z)
    (s : RegionPersistentCounter) :
  Forall (λ f, quit_key f = false) frames1 ->
  final (video_loop contains frame_count (frames1 ++ frames2) s)
  = final (video_loop contains (frame_count + Z.of_nat (length frames1)) frames2
             (final (video_loop contains frame_count frames1 s))).
Proof.
  intros Hquit. revert frame_count s.
  induction Hquit as [| f frames1 Hf _ IH]; intros frame_count s.
  - cbn [app length video_loop print emit final]. by rewrite Z.add_0_r.
  - cbn [app]. rewrite !video_loop_cons. cbn zeta. rewrite Hf. cbn [final].
    rewrite IH. cbn [length]. do 2 f_equal. lia.
Qed.

Lemma video_loop_composes_witness :
  Forall (λ f, quit_key f = false) [single_detection [0; 0; 10; 10] 28 7]
  /\ final (video_loop Shapely.contains 0
              ([single_detection [0; 0; 10; 10] 28 7]
               ++ [single_detection [100; 100; 200; 200] 28 7]) start_a)
     = final (video_loop Shapely.contains (0 + Z.of_nat 1)
                [single_detection [100; 100; 200; 200] 28 7]
                (final (video_loop Shapely.contains 0
                          [single_detection [0; 0; 10; 10] 28 7] start_a))).
Proof.
  assert (H : Forall (λ f, quit_key f = false)
                [single_detection [0; 0; 10; 10] 28 7])
    by (repeat constructor).
  split; [exact H |].
  exact (video_loop_composes Shapely.contains
           [single_detection [0; 0; 10; 10] 28 7]
           [single_detection [100; 100; 200; 200] 28 7] 0 start_a H).
Defined.

Lemma for_each_print_run {X} (msg : X -> message) (l : list X) s :
  for_each (λ x, print (msg x)) l s
  = mkResult s ((λ x, EvPrint (msg x)) <$> l) (Normal tt).
Proof.
  induction l as [| x l IH]; [reflexivity |].
  rewrite for_each_cons, bind_eq. cbn [print emit value final trace].
  rewrite IH. reflexivity.
Qed.

(** From an empty ledger, the ledger holds as many identities as
    assignments were announced. *)
Lemma announcement_size s t s' :
  object_region_assignments s = ∅ ->
  announcement s t s' ->
  size (object_region_assignments s') = length (announced t).
Proof.
  intros Hempty (Hled & _ & Hnd).
  rewrite <- length_map_to_list. apply Permutation_length.
  apply NoDup_Permutation.
  - apply NoDup_map_to_list.
  - eapply NoDup_fmap_1. exact Hnd.
  - intros [u k]. rewrite elem_of_map_to_list, Hled, Hempty, lookup_empty.
    split; [intros [H | H]; [discriminate | exact H] | auto].
Qed.

(** X12 (the final report).  A run of [process_video] from the initial state
    never raises.  After the trace of the loop it prints the final counts,
    which are those of [draw_statistics] in the state in which the loop
    ended, then one line per entry of [class_counts], in the order in which
    the classes were first seen, and it ends in the state in which the loop
    ended.  The total printed is the sum of the two region counts and equals
    the number of [assigned to Region] lines printed during the loop. *)
Theorem process_video_report
    (contains : Shapely.polygon -> Shapely.point -> bool)
    (region1_points region2_points : list (Q * Q))
    (frames : list FrameInput) (s : RegionPersistentCounter) :
  __init__ region1_points region2_points = Some s ->
  let loop := video_loop contains 0 frames s in
  exists total_count region1_count region2_count,
    draw_statistics (final loop) = (total_count, region1_count, region2_count)
    /\ process_video contains frames s
       = mkResult (final loop)
           (trace loop
            ++ EvPrint (MsgFinalCounts total_count region1_count region2_count)
               :: ((λ kv : Z * Z, EvPrint (MsgClassStatistics kv.1 kv.2))
                     <$> class_counts (final loop)))
           (Normal tt)
    /\ region1_count + region2_count = total_count
    /\ total_count = Z.of_nat (length (announced (trace loop))).
Proof.
  intros Hinit loop.
  destruct (draw_statistics (final loop)) as [[total r1] r2] eqn:Hstats.
  exists total, r1, r2. split; [reflexivity |]. split.
  { unfold process_video.
    rewrite bind_eq, video_loop_normal. cbn [value final trace].
    rewrite bind_eq. cbn [get value final trace app]. fold loop. rewrite Hstats.
    rewrite bind_eq. cbn [print emit value final trace].
    rewrite (for_each_print_run (λ kv : Z * Z, MsgClassStatistics kv.1 kv.2)).
    reflexivity. }
  assert (Hvalid : ledger_valid (final loop)).
  { eapply (reachable_ledger_valid contains s);
      [| apply video_loop_reachable, reach_start].
    apply init_start in Hinit as (p1 & p2 & _ & _ & ->).
    intros u k H. cbn in H. rewrite lookup_empty in H. discriminate. }
  pose proof (ledger_valid_counts _ Hvalid) as Hcounts.
  unfold counts_consistent in Hcounts. rewrite Hstats in Hcounts.
  destruct Hcounts as [Hsum Htotal]. split; [exact Hsum |].
  rewrite Htotal. f_equal.
  apply (announcement_size s).
  - apply init_start in Hinit as (p1 & p2 & _ & _ & ->). reflexivity.
  - apply (quiet_video_loop contains announcement announcement_quiet_relation
             (announcement_process_detection contains)).
Qed.

Lemma process_video_report_witness :
  __init__ (rectangle 150 250 150 250) (rectangle 1000 1100 1000 1100)
  = Some start_a
  /\ let loop := video_loop Shapely.contains 0
                   [single_detection [100; 100; 200; 200] 28 7;
                    single_detection [0; 0; 10; 10] 28 3] start_a in
     exists total_count region1_count region2_count,
       draw_statistics (final loop) = (total_count, region1_count, region2_count)
       /\ process_video Shapely.contains
            [single_detection [100; 100; 200; 200] 28 7;
             single_detection [0; 0; 10; 10] 28 3] start_a
          = mkResult (final loop)
              (trace loop
               ++ EvPrint (MsgFinalCounts total_count region1_count region2_count)
                  :: ((λ kv : Z * Z, EvPrint (MsgClassStatistics kv.1 kv.2))
                        <$> class_counts (final loop)))
              (Normal tt)
       /\ region1_count + region2_count = total_count
       /\ total_count = Z.of_nat (length (announced (trace loop))).
Proof.
  assert (Hinit : __init__ (rectangle 150 250 150 250)
                    (rectangle 1000 1100 1000 1100) = Some start_a)
    by (vm_compute; reflexivity).
  split; [exact Hinit |].
  exact (process_video_report Shapely.contains _ _
           [single_detection [100; 100; 200; 200] 28 7;
            single_detection [0; 0; 10; 10] 28 3] start_a Hinit).
Defined.

(* ===================================================================== *)
(** ** The class statistics *)
(* ===================================================================== *)

Lemma dict_get_incr (c c' : Z) (d : list (Z * Z)) :
  dict_get c' (dict_incr c d) = dict_get c' d + (if decide (c' = c) then 1 else 0).
Proof.
  induction d as [| [k v] d IH]; cbn [dict_incr dict_get].
  - destruct (decide (c = c')), (decide (c' = c)); congruence || lia.
  - destruct (decide (k = c)) as [-> | Hk]; cbn [dict_get].
    + destruct (decide (c = c')), (decide (c' = c)); congruence || lia.
    + destruct (decide (k = c')) as [-> | Hk'].
      * destruct (decide (c' = c)); [congruence | lia].
      * exact IH.
Qed.

Lemma dict_get_foldl (c : Z) (classes : list Z) : forall d,
  dict_get c (foldl (λ d c', dict_incr c' d) d classes)
  = dict_get c d + occurrences c classes.
Proof.
  unfold occurrences.
  induction classes as [| c' classes IH]; intros d; cbn [foldl].
  - cbn. lia.
  - rewrite IH, dict_get_incr. destruct (decide (c = c')) as [-> | Hne].
    + rewrite filter_cons_True by reflexivity. cbn [length]. lia.
    + rewrite filter_cons_False by congruence. lia.
Qed.

(** The keys of the dictionary after one more occurrence: the class is
    appended when it is new. *)
Lemma dict_incr_keys (c : Z) (d : list (Z * Z)) :
  (dict_incr c d).*1 = if decide (c ∈ d.*1) then d.*1 else d.*1 ++ [c].
Proof.
  induction d as [| [k v] d IH]; cbn [dict_incr fmap list_fmap fst].
  - rewrite decide_False by (intros H; inversion H). reflexivity.
  - destruct (decide (k = c)) as [-> | Hk]; cbn [fmap list_fmap fst].
    + rewrite decide_True by left. reflexivity.
    + change (list_fmap _ _ fst (dict_incr c d)) with ((dict_incr c d).*1).
      change (list_fmap _ _ fst d) with (d.*1). rewrite IH.
      destruct (decide (c ∈ d.*1)) as [Hin | Hnin].
      * rewrite decide_True by (by right). reflexivity.
      * rewrite decide_False; [reflexivity |].
        intros H. apply elem_of_cons in H as [-> | H]; congruence.
Qed.

(** The loop body does not touch the class statistics. *)
Lemma process_detection_class_counts contains d s :
  class_counts (final (process_detection contains d s)) = class_counts s.
Proof.
  destruct (process_detection_run contains d s)
    as [box cls_val y Hcls | box y Hbox
       | x1 y1 x2 y2 y s1 t1 u k Hres Hass
       | x1 y1 x2 y2 y s1 t1 u t2 in_r1 in_r2 Hres Hass Hscan]; cbn [final];
    try reflexivity.
  - apply resolve_inv in Hres as [(_ & -> & _) | (_ & _ & -> & _)]; reflexivity.
  - destruct (commit_other u in_r1 in_r2 s1) as (_ & _ & _ & _ & ->).
    apply resolve_inv in Hres as [(_ & -> & _) | (_ & _ & -> & _)]; reflexivity.
Qed.

Lemma for_each_class_counts contains ds : forall s,
  class_counts (final (for_each (process_detection contains) ds s)) = class_counts s.
Proof.
  induction ds as [| d ds IH]; intros s; [reflexivity |].
  rewrite for_each_cons, bind_eq.
  destruct (value (process_detection contains d s)); cbn [final];
    rewrite ?IH; apply process_detection_class_counts.
Qed.

(** X13 (class statistics of a frame).  For a frame whose boxes are not
    empty and come with a class column, [process_frame] raises the count of
    every class in [class_counts] by the number of its occurrences in the
    column, and by nothing else, whether or not the frame has track ids and
    whether or not its guarded block raises. *)
Theorem class_counts_per_frame
    (contains : Shapely.polygon -> Shapely.point -> bool)
    (b : Boxes) (other : list Results) (classes : list Z) (frame_count : Z)
    (s : RegionPersistentCounter) :
  boxes_xyxy b ≠ [] ->
  boxes_cls b = Some classes ->
  forall c,
    dict_get c (class_counts (final (process_frame contains
                                       (mkResults (Some b) :: other)
                                       frame_count s)))
    = dict_get c (class_counts s) + occurrences c classes.
Proof.
  intros Hlen Hcls c. unfold process_frame. cbn [boxes].
  destruct (boxes_xyxy b) as [| box0 rest] eqn:Hxyxy; [congruence |].
  cbn [length Nat.ltb Nat.leb].
  rewrite bind_eq, class_statistics_normal, class_statistics_final, Hcls.
  cbn [final].
  assert (Hrest : class_counts
                    (final (match boxes_id b with
                            | Some track_ids =>
                                try_except (tracking_block contains b track_ids)
                                  (λ e, print (MsgErrorTracking e))
                            | None =>
                                when (frame_count `mod` 10 =? 0)
                                  (print MsgNoTrackingIDs)
                            end (add_class_counts classes s)))
                  = class_counts (add_class_counts classes s)).
  { destruct (boxes_id b) as [track_ids |].
    - rewrite try_except_print_run.
      assert (Hblock : class_counts
                         (final (tracking_block contains b track_ids
                                   (add_class_counts classes s)))
                       = class_counts (add_class_counts classes s)).
      { unfold tracking_block. rewrite Hcls, bind_eq.
        cbn [mret M_ret ret value final trace]. apply for_each_class_counts. }
      destruct (value (tracking_block contains b track_ids
                         (add_class_counts classes s))); exact Hblock.
    - rewrite when_print_run. reflexivity. }
  rewrite Hrest. cbn [add_class_counts class_counts]. apply dict_get_foldl.
Qed.

(** The three suitcases of [broken_boxes]; the box of the second is malformed
    and raises, the statistics count all three. *)
Lemma class_counts_per_frame_witness :
  (boxes_xyxy broken_boxes ≠ [] /\ boxes_cls broken_boxes = Some [28; 28; 28])
  /\ dict_get 28 (class_counts (final (process_frame Shapely.contains
                                         (mkResults (Some broken_boxes) :: [])
                                         1 start_a)))
     = dict_get 28 (class_counts start_a) + occurrences 28 [28; 28; 28].
Proof.
  split; [split; [discriminate | reflexivity] |].
  apply (class_counts_per_frame Shapely.contains broken_boxes [] [28; 28; 28] 1
           start_a); [discriminate | reflexivity].
Defined.

Lemma class_counts_valid_incr (c : Z) (d : list (Z * Z)) :
  NoDup d.*1 /\ (forall k v, (k, v) ∈ d -> 1 <= v) ->
  NoDup (dict_incr c d).*1 /\ (forall k v, (k, v) ∈ dict_incr c d -> 1 <= v).
Proof.
  intros [Hnd Hpos]. split.
  - rewrite dict_incr_keys. destruct (decide (c ∈ d.*1)); [exact Hnd |].
    apply NoDup_app. split; [exact Hnd |]. split; [| apply NoDup_singleton].
    intros k Hk Hk'. apply list_elem_of_singleton in Hk'. congruence.
  - clear Hnd. induction d as [| [k v] d IH]; cbn [dict_incr].
    + intros k v H. apply list_elem_of_singleton in H as [= _ <-]. lia.
    + assert (Hd : forall k' v', (k', v') ∈ d -> 1 <= v')
        by (intros k' v' H; eapply Hpos; right; exact H).
      assert (Hv : 1 <= v) by (eapply Hpos; left).
      destruct (decide (k = c)) as [-> | Hk]; intros k' v' H;
        apply elem_of_cons in H as [Heq | H].
      * injection Heq as -> ->. lia.
      * eauto.
      * injection Heq as -> ->. lia.
      * eapply IH; eauto.
Qed.

Lemma class_counts_valid_foldl (classes : list Z) : forall d,
  NoDup d.*1 /\ (forall k v, (k, v) ∈ d -> 1 <= v) ->
  NoDup (foldl (λ d c, dict_incr c d) d classes).*1
  /\ (forall k v, (k, v) ∈ foldl (λ d c, dict_incr c d) d classes -> 1 <= v).
Proof.
  induction classes as [| c classes IH]; intros d Hd; [exact Hd |].
  cbn [foldl]. apply IH, class_counts_valid_incr, Hd.
Qed.

(** X14 (one statistics line per class).  In every state that a run from the
    initial state goes through, [class_counts] holds each class at most once
    and every count in it is at least 1; so the final report prints one line
    per class seen, never a line with count zero. *)
Theorem class_counts_distinct
    (contains : Shapely.polygon -> Shapely.point -> bool)
    (region1_points region2_points : list (Q * Q))
    (s0 s : RegionPersistentCounter) :
  __init__ region1_points region2_points = Some s0 ->
  reachable contains s0 s ->
  NoDup (class_counts s).*1
  /\ (forall c n, (c, n) ∈ class_counts s -> 1 <= n).
Proof.
  intros Hinit Hreach.
  induction Hreach as [| s d _ IH | s classes _ IH].
  - apply init_start in Hinit as (p1 & p2 & _ & _ & ->). cbn.
    split; [constructor | intros c n H; inversion H].
  - rewrite process_detection_class_counts. exact IH.
  - cbn [add_class_counts class_counts]. by apply class_counts_valid_foldl.
Qed.

Lemma class_counts_distinct_witness :
  (__init__ (rectangle 150 250 150 250) (rectangle 1000 1100 1000 1100)
   = Some start_a
   /\ reachable Shapely.contains start_a
        (final (process_video Shapely.contains [broken_frame; broken_frame] start_a)))
  /\ NoDup (class_counts
              (final (process_video Shapely.contains [broken_frame; broken_frame]
                        start_a))).*1.
Proof.
  assert (Hinit : __init__ (rectangle 150 250 150 250)
                    (rectangle 1000 1100 1000 1100) = Some start_a)
    by (vm_compute; reflexivity).
  assert (Hreach : reachable Shapely.contains start_a
                     (final (process_video Shapely.contains
                               [broken_frame; broken_frame] start_a)))
    by (apply process_video_reachable, reach_start).
  split; [split; assumption |].
  exact (proj1 (class_counts_distinct Shapely.contains _ _ _ _ Hinit Hreach)).
Defined.

(* ===================================================================== *)
(** ** What a run never does *)
(* ===================================================================== *)

(** X15 (nothing is taken back).  A run of [process_video], from any state,
    never changes the two region polygons, never removes a registry entry or
    maps its tracker id to another identity, and never lowers
    [next_custom_id]. *)
Theorem registry_entries_permanent
    (contains : Shapely.polygon -> Shapely.point -> bool)
    (frames : list FrameInput) (s : RegionPersistentCounter) :
  let s' := final (process_video contains frames s) in
  region_polygon1 s' = region_polygon1 s
  /\ region_polygon2 s' = region_polygon2 s
  /\ (forall y u,
        yolo_id_to_custom_id s !! y = Some u -> yolo_id_to_custom_id s' !! y = Some u)
  /\ next_custom_id s <= next_custom_id s'.
Proof.
  cbn zeta.
  destruct (respects_process_video contains extends extends_step_relation
              (extends_process_detection contains) frames s)
    as (Hp1 & Hp2 & Hreg & _ & _).
  destruct (respects_process_video contains issuance issuance_step_relation
              (issuance_process_detection contains) frames s)
    as (_ & Hnext & _).
  split; [exact Hp1 |]. split; [exact Hp2 |]. split; [| lia].
  intros y u Hy. eapply lookup_weaken; eassumption.
Qed.

Lemma length_schedule u cps : length (schedule u cps) = (2 * length cps)%nat.
Proof.
  unfold schedule. induction cps as [| cp cps IH]; [reflexivity |].
  cbn [mbind list_bind app length]. cbn [length] in *.
  change (list_bind _ _ ?f cps) with (cps ≫= f). rewrite IH. lia.
Qed.

(** X16 (at most twelve tests per detection).  Processing one detection makes
    at most twelve membership tests; it makes none when the class is not 28,
    when the box does not hold four values, or when the identity has a
    region already. *)
Theorem membership_tests_bounded
    (contains : Shapely.polygon -> Shapely.point -> bool)
    (d : list Z * Z * Z) (s : RegionPersistentCounter) :
  let r := process_detection contains d s in
  (length (tests (trace r)) <= 12)%nat
  /\ (d.1.2 ≠ 28 -> tests (trace r) = [])
  /\ ((forall x1 y1 x2 y2, d.1.1 ≠ [x1; y1; x2; y2]) -> tests (trace r) = [])
  /\ (forall u k,
        yolo_id_to_custom_id s !! d.2 = Some u ->
        object_region_assignments s !! u = Some k -> tests (trace r) = []).
Proof.
  cbn zeta.
  destruct (process_detection_run contains d s)
    as [box cls_val y Hcls | box y Hbox
       | x1 y1 x2 y2 y s1 t1 u k Hres Hass
       | x1 y1 x2 y2 y s1 t1 u t2 in_r1 in_r2 Hres Hass Hscan];
    cbn [final trace value fst snd].
  - repeat split; auto; cbn; lia.
  - repeat split; auto; cbn; lia.
  - rewrite (tests_resolve _ _ _ _ _ Hres). repeat split; auto; cbn; lia.
  - rewrite !tests_app, (tests_resolve _ _ _ _ _ Hres), tests_commit_trace, app_nil_r.
    cbn [app].
    pose proof (region_scan_tests_prefix contains u (check_points x1 y1 x2 y2) s1)
      as Hprefix.
    rewrite Hscan in Hprefix. cbn [trace] in Hprefix.
    split; [| split; [congruence | split]].
    + apply prefix_length in Hprefix. rewrite length_schedule in Hprefix.
      cbn [check_points length] in Hprefix. lia.
    + intros Hbox. destruct (Hbox x1 y1 x2 y2 eq_refl).
    + intros u' k' Hy Hu'. exfalso.
      rewrite (resolve_seen _ _ _ Hy) in Hres. injection Hres as <- _ <-.
      congruence.
Qed.

(* ===================================================================== *)
(** ** Identities in the order of first appearance *)
(* ===================================================================== *)

(** The loop body on a well-formed suitcase detection with a pixel-sized
    box ends normally; it issues what the resolution of the tracker id
    issues and leaves the registry as the resolution leaves it. *)
Lemma process_detection_well_formed contains x1 y1 x2 y2 y s :
  pixel_box x1 y1 x2 y2 ->
  exists s1 t1 u s' t',
    resolve_custom_id y s = mkResult s1 t1 (Normal u)
    /\ process_detection contains ([x1; y1; x2; y2], 28, y) s
       = mkResult s' t' (Normal tt)
    /\ issues t' = issues t1
    /\ yolo_id_to_custom_id s' = yolo_id_to_custom_id s1
    /\ next_custom_id s' = next_custom_id s1.
Proof.
  intros Hpix.
  destruct (resolve_run y s) as (s1 & t1 & u & Hres).
  destruct (object_region_assignments s1 !! u) as [k |] eqn:Hass.
  - exists s1, t1, u, s1, t1. split; [exact Hres |].
    split; [| auto].
    rewrite <- (draw_frozen_pixel_box x1 y1 x2 y2 Hpix).
    eapply process_detection_frozen; eassumption.
  - destruct (region_scan_run contains u (check_points x1 y1 x2 y2) s1)
      as (t2 & in_r1 & in_r2 & Hscan & Hev).
    exists s1, t1, u, (commit u in_r1 in_r2 s1),
      (t1 ++ t2 ++ commit_trace u in_r1 in_r2).
    split; [exact Hres |].
    split; [rewrite <- (draw_scanned_pixel_box x1 y1 x2 y2 Hpix);
            eapply process_detection_scanned; eassumption |].
    destruct (commit_other u in_r1 in_r2 s1) as (_ & _ & Hreg & Hnext & _).
    split; [| auto].
    rewrite issues_app.
    rewrite (issues_none (t2 ++ commit_trace u in_r1 in_r2)); [apply app_nil_r |].
    intros ev Hin y' u' ->. apply elem_of_app in Hin as [Hin | Hin].
    + destruct (Hev _ Hin) as (cp & k & Habs & _). discriminate.
    + apply commit_trace_prints in Hin as [m Hm]. discriminate.
Qed.

Lemma first_seen_run contains ds : forall s,
  suitcases_well_formed ds ->
  let r := for_each (process_detection contains) ds s in
  value r = Normal tt
  /\ (issues (trace r)).*1 = first_seen (dom (yolo_id_to_custom_id s)) (suitcase_ids ds).
Proof.
  induction ds as [| [[box cls_val] y] ds IH]; intros s Hwf; [split; reflexivity |].
  apply Forall_cons in Hwf as [Hd Hwf]. cbn zeta. unfold suitcase_ids.
  destruct (decide (cls_val = 28)) as [-> | Hcls].
  - destruct (Hd eq_refl) as (x1 & y1 & x2 & y2 & Hbox & Hpix). cbn in Hbox. subst box.
    destruct (process_detection_well_formed contains x1 y1 x2 y2 y s Hpix)
      as (s1 & t1 & u & s' & t' & Hres & Hrun & Hiss & Hreg & _).
    rewrite for_each_cons.
    rewrite (bind_Normal _ _ _ _ _ _ _ _ _ Hrun (result_eta _)). cbn [value trace].
    destruct (IH s' Hwf) as [Hval Hkeys]. split; [exact Hval |].
    rewrite issues_app, fmap_app, Hkeys, Hiss, Hreg.
    rewrite filter_cons_True by reflexivity. cbn [fmap list_fmap snd first_seen].
    apply resolve_inv in Hres as [(Hy & -> & ->) | (Hy & -> & -> & ->)].
    + rewrite decide_True by (apply elem_of_dom; eauto). reflexivity.
    + rewrite decide_False by (by apply not_elem_of_dom).
      cbn [register_id yolo_id_to_custom_id]. rewrite dom_insert_L. reflexivity.
  - rewrite for_each_skip by (by apply process_detection_other_class).
    rewrite filter_cons_False by exact Hcls. apply (IH s Hwf).
Qed.

(** X17 (numbered in the order of first appearance).  When every suitcase
    detection of a list has a pixel-sized box of four values, processing the
    list ends normally and issues identities to exactly the tracker ids of
    suitcases that the registry did not know, each at its first occurrence
    and in that order; the k-th of them receives [next_custom_id + k - 1]. *)
Theorem identities_in_first_seen_order
    (contains : Shapely.polygon -> Shapely.point -> bool)
    (ds : list (list Z * Z * Z)) (s : RegionPersistentCounter) :
  suitcases_well_formed ds ->
  let r := for_each (process_detection contains) ds s in
  let new_ids := first_seen (dom (yolo_id_to_custom_id s)) (suitcase_ids ds) in
  value r = Normal tt
  /\ issues (trace r)
     = zip new_ids (seqZ (next_custom_id s) (Z.of_nat (length new_ids))).
Proof.
  intros Hwf r new_ids.
  destruct (first_seen_run contains ds s Hwf) as [Hval Hkeys].
  fold r in Hval, Hkeys. fold new_ids in Hkeys. split; [exact Hval |].
  destruct (respects_for_each issuance issuance_step_relation
              (process_detection contains) ds
              (issuance_process_detection contains) s) as (Hseq & _).
  fold r in Hseq.
  rewrite <- (zip_fst_snd (issues (trace r))) at 1.
  rewrite Hseq, Hkeys. do 3 f_equal.
  rewrite <- Hkeys. symmetry. apply length_fmap.
Qed.

(** Tracker ids 7, 3, 7 and a person with id 5, from the start of a run:
    7 becomes identity 1 and 3 becomes identity 2. *)
Lemma identities_in_first_seen_order_witness :
  suitcases_well_formed
    [([100; 100; 200; 200], 28, 7); ([0; 0; 1; 1], 0, 5);
     ([0; 0; 10; 10], 28, 3); ([120; 120; 220; 220], 28, 7)]
  /\ issues (trace (for_each (process_detection Shapely.contains)
                      [([100; 100; 200; 200], 28, 7); ([0; 0; 1; 1], 0, 5);
                       ([0; 0; 10; 10], 28, 3); ([120; 120; 220; 220], 28, 7)]
                      start_a))
     = [(7, 1); (3, 2)].
Proof.
  assert (Hwf : suitcases_well_formed
                  [([100; 100; 200; 200], 28, 7); ([0; 0; 1; 1], 0, 5);
                   ([0; 0; 10; 10], 28, 3); ([120; 120; 220; 220], 28, 7)]).
  { repeat constructor; intros _; cbn; eexists _, _, _, _;
      (split; [reflexivity | unfold pixel_box; lia]). }
  split; [exact Hwf |].
  exact (proj2 (identities_in_first_seen_order Shapely.contains _ start_a Hwf)).
Defined.

(* ===================================================================== *)
(** ** Issuance over a run *)
(* ===================================================================== *)

(** The loop body on a suitcase detection with a box of four values issues
    what the resolution of its tracker id issues and leaves the registry as
    the resolution leaves it, whether or not the detection can be drawn. *)
Lemma process_detection_resolves contains x1 y1 x2 y2 y s :
  let r := process_detection contains ([x1; y1; x2; y2], 28, y) s in
  exists s1 t1 u,
    resolve_custom_id y s = mkResult s1 t1 (Normal u)
    /\ issues (trace r) = issues t1
    /\ yolo_id_to_custom_id (final r) = yolo_id_to_custom_id s1
    /\ next_custom_id (final r) = next_custom_id s1.
Proof.
  cbn zeta. destruct (resolve_run y s) as (s1 & t1 & u & Hres).
  exists s1, t1, u. split; [exact Hres |].
  destruct (object_region_assignments s1 !! u) as [k |] eqn:Hass.
  - rewrite (process_detection_frozen contains _ _ _ _ _ _ _ _ _ _ Hres Hass). auto.
  - destruct (region_scan_run contains u (check_points x1 y1 x2 y2) s1)
      as (t2 & in_r1 & in_r2 & Hscan & Hev).
    rewrite (process_detection_scanned contains _ _ _ _ _ _ _ _ _ _ _ _
               Hres Hass Hscan). cbn [final trace].
    destruct (commit_other u in_r1 in_r2 s1) as (_ & _ & Hreg & Hnext & _).
    split; [| auto].
    rewrite issues_app.
    rewrite (issues_none (t2 ++ commit_trace u in_r1 in_r2)); [apply app_nil_r |].
    intros ev Hin y' u' ->. apply elem_of_app in Hin as [Hin | Hin].
    + destruct (Hev _ Hin) as (cp & k & Habs & _). discriminate.
    + apply commit_trace_prints in Hin as [m Hm]. discriminate.
Qed.

(** What the loop body issues and registers, from the registry before it. *)
Lemma process_detection_issues contains x1 y1 x2 y2 y s :
  let r := process_detection contains ([x1; y1; x2; y2], 28, y) s in
  match yolo_id_to_custom_id s !! y with
  | Some u =>
      issues (trace r) = []
      /\ yolo_id_to_custom_id (final r) = yolo_id_to_custom_id s
      /\ next_custom_id (final r) = next_custom_id s
  | None =>
      issues (trace r) = [(y, next_custom_id s)]
      /\ yolo_id_to_custom_id (final r)
         = <[y := next_custom_id s]> (yolo_id_to_custom_id s)
      /\ next_custom_id (final r) = next_custom_id s + 1
  end.
Proof.
  cbn zeta.
  destruct (process_detection_resolves contains x1 y1 x2 y2 y s)
    as (s1 & t1 & u & Hres & -> & -> & ->).
  apply resolve_inv in Hres as [(-> & -> & ->) | (-> & -> & -> & ->)]; auto.
Qed.

(** A frame with a single detection issues what the loop body issues on
    that detection. *)
Lemma single_detection_issues contains box cls_val yolo_id frame_count s :
  issues (trace (process_frame contains (track (single_detection box cls_val yolo_id))
                   frame_count s))
  = issues (trace (process_detection contains (box, cls_val, yolo_id)
                     (add_class_counts [cls_val] s))).
Proof.
  unfold process_frame, single_detection.
  cbn [track boxes boxes_xyxy boxes_id length Nat.ltb Nat.leb].
  destruct (class_statistics_run
              (mkBoxes [box] (Some [cls_val]) (Some [yolo_id])) frame_count s)
    as (t & Hstat & Ht & _).
  cbn [boxes_cls] in Hstat.
  rewrite bind_eq, Hstat. cbn [value final trace].
  rewrite try_except_print_run.
  unfold tracking_block. cbn [boxes_cls boxes_xyxy].
  rewrite bind_eq. cbn [mret M_ret ret value final trace app].
  change (zip3 [box] [cls_val] [yolo_id]) with [(box, cls_val, yolo_id)].
  rewrite for_each_cons, bind_eq.
  destruct (value (process_detection contains (box, cls_val, yolo_id)
                     (add_class_counts [cls_val] s)));
    cbn [value final trace for_each ret]; rewrite !issues_app, Ht, ?app_nil_r;
    reflexivity.
Qed.

(** Over frames that hold one suitcase detection each, the tracker ids that
    receive an identity are those not known before, each at its first
    frame. *)
Lemma single_detections_issues contains (dets : list (list Z * Z)) :
  forall frame_count s,
  Forall (λ d : list Z * Z, exists x1 y1 x2 y2, d.1 = [x1; y1; x2; y2]) dets ->
  (issues (trace (video_loop contains frame_count
                    (map (λ d : list Z * Z, single_detection d.1 28 d.2) dets) s))).*1
  = first_seen (dom (yolo_id_to_custom_id s)) dets.*2.
Proof.
  induction dets as [| [box y] dets IH]; intros frame_count s Hwf; [reflexivity |].
  apply Forall_cons in Hwf as [(x1 & y1 & x2 & y2 & Hbox) Hwf]. cbn in Hbox. subst box.
  cbn [map fst snd]. rewrite video_loop_cons. cbn zeta.
  cbn [quit_key single_detection trace].
  change (mkFrame [mkResults (Some (mkBoxes [[x1; y1; x2; y2]] (Some [28]) (Some [y])))]
            false)
    with (single_detection [x1; y1; x2; y2] 28 y).
  rewrite !issues_app, single_detection_issues, single_detection_final.
  assert (Hpr : issues (if (frame_count + 1) `mod` 10 =? 0
                        then [EvPrint (MsgProcessingFrame (frame_count + 1))]
                        else []) = []) by (destruct (_ =? _); reflexivity).
  rewrite Hpr, app_nil_l, fmap_app, IH by exact Hwf.
  pose proof (process_detection_issues contains x1 y1 x2 y2 y
                (add_class_counts [28] s)) as Hiss.
  cbn zeta in Hiss. cbn [add_class_counts yolo_id_to_custom_id next_custom_id] in Hiss.
  cbn [fmap list_fmap snd first_seen].
  destruct (yolo_id_to_custom_id s !! y) as [u |] eqn:Hy.
  - destruct Hiss as (-> & -> & _).
    rewrite decide_True by (apply elem_of_dom; eauto). reflexivity.
  - destruct Hiss as (-> & -> & _).
    rewrite decide_False by (by apply not_elem_of_dom).
    rewrite dom_insert_L. reflexivity.
Qed.

Lemma for_each_print_issues {X} (msg : X -> message) (l : list X) s :
  issues (trace (for_each (λ x, print (msg x)) l s)) = [].
Proof.
  induction l as [| x l IH]; [reflexivity |].
  rewrite for_each_cons, bind_eq. cbn [print emit value final trace].
  cbn [app issues]. exact IH.
Qed.

(** The report at the end of [process_video] issues nothing. *)
Lemma process_video_issues contains frames s :
  issues (trace (process_video contains frames s))
  = issues (trace (video_loop contains 0 frames s)).
Proof.
  unfold process_video. rewrite bind_eq, video_loop_normal. cbn [final trace].
  rewrite bind_eq. cbn [get value final trace].
  destruct (draw_statistics (final (video_loop contains 0 frames s))) as [[total r1] r2].
  rewrite bind_eq. cbn [print emit value final trace].
  rewrite !issues_app. cbn [app issues].
  rewrite (for_each_print_issues (λ kv, MsgClassStatistics kv.1 kv.2)).
  apply app_nil_r.
Qed.

(** C5 (monotonic issuance).  Over a run from the initial state, the
    identities issued are, in the order of issue, exactly 1, 2, ..., n:
    consecutive, strictly increasing, none used twice; the tracker ids that
    received them are pairwise distinct; the final registry holds exactly
    the entries issued; the counter ends at n + 1.  Every tracker id seen for
    the first time receives one: in any state, the loop body on a suitcase
    detection with a box of four values leaves a known tracker id alone, and
    gives an unknown one the identity [next_custom_id], recorded in the
    registry, the counter going up by one; and over frames that hold one
    suitcase detection each, the tracker ids that receive 1, 2, ..., n are
    the distinct ids of the frames, in the order of their first frames. *)
Theorem monotonic_issuance
    (contains : Shapely.polygon -> Shapely.point -> bool)
    (region1_points region2_points : list (Q * Q))
    (s0 : RegionPersistentCounter) (frames : list FrameInput) :
  __init__ region1_points region2_points = Some s0 ->
  let run := process_video contains frames s0 in
  let issued := issues (trace run) in
  issued.*2 = seqZ 1 (Z.of_nat (length issued))
  /\ NoDup issued.*2
  /\ NoDup issued.*1
  /\ (forall y u, yolo_id_to_custom_id (final run) !! y = Some u <-> (y, u) ∈ issued)
  /\ next_custom_id (final run) = 1 + Z.of_nat (length issued)
  /\ (forall s x1 y1 x2 y2 y,
        let r := process_detection contains ([x1; y1; x2; y2], 28, y) s in
        match yolo_id_to_custom_id s !! y with
        | Some u =>
            issues (trace r) = []
            /\ yolo_id_to_custom_id (final r) = yolo_id_to_custom_id s
            /\ next_custom_id (final r) = next_custom_id s
        | None =>
            issues (trace r) = [(y, next_custom_id s)]
            /\ yolo_id_to_custom_id (final r)
               = <[y := next_custom_id s]> (yolo_id_to_custom_id s)
            /\ next_custom_id (final r) = next_custom_id s + 1
        end)
  /\ (forall dets : list (list Z * Z),
        Forall (λ d : list Z * Z, exists x1 y1 x2 y2, d.1 = [x1; y1; x2; y2]) dets ->
        let run := process_video contains
                     (map (λ d : list Z * Z, single_detection d.1 28 d.2) dets) s0 in
        let new_ids := first_seen ∅ dets.*2 in
        issues (trace run) = zip new_ids (seqZ 1 (Z.of_nat (length new_ids)))).
Proof.
  intros Hinit run issued.
  assert (Hs0 : yolo_id_to_custom_id s0 = ∅ /\ next_custom_id s0 = 1).
  { unfold __init__ in Hinit.
    destruct (Shapely.Polygon region1_points); [| discriminate].
    destruct (Shapely.Polygon region2_points); [| discriminate].
    cbn in Hinit. injection Hinit as <-. auto. }
  destruct Hs0 as [Hreg0 Hnext0].
  destruct (respects_process_video contains issuance issuance_step_relation
              (issuance_process_detection contains) frames s0)
    as (Hseq & Hnext & Hreg & _ & Hnd).
  fold run in Hseq, Hnext, Hreg, Hnd. fold issued in Hseq, Hnext, Hreg, Hnd.
  rewrite Hnext0 in Hseq, Hnext.
  split; [exact Hseq |]. split; [rewrite Hseq; apply NoDup_seqZ |].
  split; [exact Hnd |]. split; [| split; [exact Hnext |]].
  { intros y u. rewrite Hreg, Hreg0, lookup_empty.
    split; [intros [H | H] | auto]; [discriminate | exact H]. }
  split; [intros s x1 y1 x2 y2 y; apply process_detection_issues |].
  intros dets Hwf run' new_ids.
  destruct (respects_process_video contains issuance issuance_step_relation
              (issuance_process_detection contains)
              (map (λ d : list Z * Z, single_detection d.1 28 d.2) dets) s0)
    as (Hseq' & _).
  fold run' in Hseq'. rewrite Hnext0 in Hseq'.
  assert (Hkeys : (issues (trace run')).*1 = new_ids).
  { unfold run', new_ids. rewrite process_video_issues.
    rewrite (single_detections_issues contains dets 0 s0 Hwf), Hreg0, dom_empty_L.
    reflexivity. }
  rewrite <- (zip_fst_snd (issues (trace run'))) at 1.
  rewrite Hseq', Hkeys. do 3 f_equal.
  rewrite <- Hkeys. symmetry. apply length_fmap.
Qed.

(** Tracker ids 7, 3 and 7 again, from the start of a run: 7 receives
    identity 1 and 3 receives identity 2. *)
Lemma monotonic_issuance_witness :
  __init__ (rectangle 150 250 150 250) (rectangle 1000 1100 1000 1100) = Some start_a
  /\ let run := process_video Shapely.contains
                  [single_detection [100; 100; 200; 200] 28 7;
                   single_detection [0; 0; 10; 10] 28 3;
                   single_detection [120; 120; 220; 220] 28 7]
                  start_a in
     issues (trace run) = [(7, 1); (3, 2)]
     /\ yolo_id_to_custom_id (final run) !! 7 = Some 1
     /\ yolo_id_to_custom_id (final run) !! 3 = Some 2
     /\ next_custom_id (final run) = 3.
Proof.
  assert (Hinit : __init__ (rectangle 150 250 150 250)
                    (rectangle 1000 1100 1000 1100) = Some start_a)
    by (vm_compute; reflexivity).
  split; [exact Hinit |].
  set (dets := [([100; 100; 200; 200], 7); ([0; 0; 10; 10], 3);
                ([120; 120; 220; 220], 7)] : list (list Z * Z)).
  destruct (monotonic_issuance Shapely.contains
              (rectangle 150 250 150 250) (rectangle 1000 1100 1000 1100) start_a
              (map (λ d : list Z * Z, single_detection d.1 28 d.2) dets) Hinit)
    as (_ & _ & _ & Hreg & Hnext & _ & Hframes).
  assert (Hwf : Forall (λ d : list Z * Z, exists x1 y1 x2 y2, d.1 = [x1; y1; x2; y2])
                  dets) by (repeat constructor; cbn; eauto).
  pose proof (Hframes dets Hwf) as Hiss. cbn zeta in Hiss.
  change (zip (first_seen ∅ dets.*2)
            (seqZ 1 (Z.of_nat (length (first_seen ∅ dets.*2)))))
    with [(7, 1); (3, 2)] in Hiss.
  cbn zeta. change (map (λ d : list Z * Z, single_detection d.1 28 d.2) dets)
    with [single_detection [100; 100; 200; 200] 28 7;
          single_detection [0; 0; 10; 10] 28 3;
          single_detection [120; 120; 220; 220] 28 7] in Hreg, Hnext, Hiss.
  rewrite Hiss in Hreg, Hnext.
  split; [exact Hiss |].
  split; [apply Hreg; left |].
  split; [apply Hreg; right; left | exact Hnext].
Defined.
